(** * The Linux sysfs GPIO driver of no-OS, [drivers/platform/linux/linux_gpio.c]

    The driver is a sequence of libc and system calls around two heap
    structures.  It is embedded as programs of a small free monad whose
    operations are the calls the C code makes; [run] executes a program
    against an arbitrary environment (the kernel and the allocator), keeps
    the heap, and logs every call with its result in a trace.  The theorems
    are about what [run] returns and logs. *)

From Stdlib Require Import ZArith List String Ascii Lia.
From stdpp Require Import base option list gmap strings.

Open Scope Z_scope.

(** ** Values of the missing headers *)

(** Modelled from the spec: error.h is not among the sources.  Section 7:
    a flat, two-valued status is surfaced, ok or generic failure. *)
Inductive status : Set := SUCCESS | FAILURE.

#[global] Instance status_eq_dec : EqDecision status.
Proof. solve_decision. Defined.

(** Modelled from the spec: gpio.h is not among the sources.  Section 4.5:
    0 means low. *)
Definition GPIO_LOW : Z := 0.

(** Modelled from the spec: gpio.h is not among the sources.  Section 4.5:
    any non-zero value means high; section 8 reads back 1 after driving 1. *)
Definition GPIO_HIGH : Z := 1.

(** Modelled from the spec: gpio.h is not among the sources.  Section 3: the
    pin init parameters are the kernel GPIO number. *)
Record gpio_init_param : Set := { number : Z }.

(** fcntl.h access modes. *)
Inductive oflag : Set := O_RDONLY | O_WRONLY | O_RDWR.

#[global] Instance oflag_eq_dec : EqDecision oflag.
Proof. solve_decision. Defined.

Definition NULL : Z := 0.
Definition NUL : ascii := "000"%char.

(** ** Memory *)

(** What [malloc] is asked for: [sizeof(gpio_desc)] or
    [sizeof(struct linux_gpio_desc)]. *)
Inductive kind : Set := K_gpio_desc | K_linux_gpio_desc.

Inductive field : Set := Fnumber | Fextra | Fdirection_fd | Fvalue_fd | Fderef.

(** Modelled from the spec: gpio.h, which declares the handle, is not among
    the sources.  [Bgpio_desc] has the two fields of it the driver uses:
    [number] (section 3: the handle owns the pin number) and [extra], the
    pointer to the Linux part.  [Blinux_gpio_desc] is the
    [struct linux_gpio_desc] of the source with its two file descriptors.
    The fields of a structure fresh from [malloc] are indeterminate ([None])
    until they are stored.  [Bptr] and [Bu8] are the caller's
    [struct gpio_desc *] and [uint8_t] variables, reached through the [desc]
    and [value] out-parameters. *)
Inductive block : Set :=
| Bgpio_desc (num ext : option Z)
| Blinux_gpio_desc (dfd vfd : option Z)
| Bptr (p : Z)
| Bu8 (v : Z).

Definition blank (k : kind) : block :=
  match k with
  | K_gpio_desc => Bgpio_desc None None
  | K_linux_gpio_desc => Blinux_gpio_desc None None
  end.

Definition block_load (f : field) (b : block) : option Z :=
  match f, b with
  | Fnumber, Bgpio_desc n _ => n
  | Fextra, Bgpio_desc _ x => x
  | Fdirection_fd, Blinux_gpio_desc d _ => d
  | Fvalue_fd, Blinux_gpio_desc _ v => v
  | Fderef, Bptr p => Some p
  | Fderef, Bu8 v => Some v
  | _, _ => None
  end.

Definition block_store (f : field) (v : Z) (b : block) : option block :=
  match f, b with
  | Fnumber, Bgpio_desc _ x => Some (Bgpio_desc (Some v) x)
  | Fextra, Bgpio_desc n _ => Some (Bgpio_desc n (Some v))
  | Fdirection_fd, Blinux_gpio_desc _ w => Some (Blinux_gpio_desc (Some v) w)
  | Fvalue_fd, Blinux_gpio_desc d _ => Some (Blinux_gpio_desc d (Some v))
  | Fderef, Bptr _ => Some (Bptr v)
  | Fderef, Bu8 _ => Some (Bu8 v)
  | _, _ => None
  end.

(** [malloc] hands out an address that is neither [NULL] nor live. *)
Definition fresh_addr (h : gmap Z block) : Z := fresh ({[NULL]} ∪ dom h).

(** ** Calls and programs *)

(** What a driver function does, one constructor per kind of step: the libc
    allocator, accesses through a pointer, the declaration of a [char]
    local that is not initialised (its content is whatever the stack holds),
    the four system calls and [printf].  [Write] and [Read] carry the
    content of the buffer object they are given; [Read] answers with the
    count and the content of the buffer afterwards. *)
Inductive call : Type -> Type :=
| Malloc (k : kind) : call Z
| Free (p : Z) : call unit
| Load (p : Z) (f : field) : call Z
| Store (p : Z) (f : field) (v : Z) : call unit
| Local_char : call ascii
| Open (path : string) (fl : oflag) : call Z
| Write (fd : Z) (buf : list ascii) (count : nat) : call Z
| Read (fd : Z) (buf : list ascii) (count : nat) : call (Z * list ascii)
| Close (fd : Z) : call Z
| Printf (msg : string) : call unit.

(** A program: a value, or a call and what to do with its answer. *)
Inductive prog (A : Type) : Type :=
| Ret (a : A)
| Vis (R : Type) (c : call R) (k : R -> prog A).

Arguments Ret {A} a.
Arguments Vis {A R} c k.

Fixpoint bind {A B : Type} (p : prog A) (f : A -> prog B) : prog B :=
  match p with
  | Ret a => f a
  | Vis c k => Vis c (fun r => bind (k r) f)
  end.

#[global] Instance prog_ret : MRet prog := @Ret.
#[global] Instance prog_bind : MBind prog := fun A B f p => bind p f.

Definition malloc (k : kind) : prog Z := Vis (Malloc k) Ret.
Definition free (p : Z) : prog unit := Vis (Free p) Ret.
Definition load (p : Z) (f : field) : prog Z := Vis (Load p f) Ret.
Definition store (p : Z) (f : field) (v : Z) : prog unit := Vis (Store p f v) Ret.
Definition local_char : prog ascii := Vis Local_char Ret.
Definition open (path : string) (fl : oflag) : prog Z := Vis (Open path fl) Ret.
Definition write (fd : Z) (buf : list ascii) (count : nat) : prog Z :=
  Vis (Write fd buf count) Ret.
Definition read (fd : Z) (buf : list ascii) (count : nat) : prog (Z * list ascii) :=
  Vis (Read fd buf count) Ret.
Definition close (fd : Z) : prog Z := Vis (Close fd) Ret.
Definition printf (msg : string) : prog unit := Vis (Printf msg) Ret.

(** ** The environment and the trace *)

(** What the program cannot decide: whether an allocation succeeds, what
    the kernel answers, what an uninitialised local holds.  [write] and
    [read] answer [None] for -1, or the bytes taken or given, of which at
    most [count] count. *)
Record env (W : Type) : Type := {
  env_malloc : kind -> W -> bool * W;
  env_local_char : W -> ascii * W;
  env_open : string -> oflag -> W -> Z * W;
  env_write : Z -> list ascii -> W -> option nat * W;
  env_read : Z -> nat -> W -> option (list ascii) * W;
  env_close : Z -> W -> Z * W
}.

Arguments env_malloc {W}.
Arguments env_local_char {W}.
Arguments env_open {W}.
Arguments env_write {W}.
Arguments env_read {W}.
Arguments env_close {W}.

(** What the trace keeps of a call: its arguments and its result.  Loads
    and local declarations leave no trace. *)
Inductive event : Set :=
| EvMalloc (k : kind) (p : Z)
| EvFree (p : Z)
| EvStore (p : Z) (f : field) (v : Z)
| EvOpen (path : string) (fl : oflag) (fd : Z)
| EvWrite (fd : Z) (bytes : list ascii) (ret : Z)
| EvRead (fd : Z) (count : nat) (ret : Z) (bytes : list ascii)
| EvClose (fd : Z) (ret : Z)
| EvPrintf (msg : string).

Record state (W : Type) : Type := {
  heap : gmap Z block;
  world : W;
  trace : list event
}.

Arguments Build_state {W}.
Arguments heap {W}.
Arguments world {W}.
Arguments trace {W}.

(** What [write] returns to its caller for an answer of the environment: -1,
    or a count of at most [count].  The callers keep it in an [int], which
    holds every such value for the counts used here. *)
Definition ssize (count : nat) (r : option nat) : Z :=
  match r with
  | None => -1
  | Some n => Z.of_nat (Nat.min n count)
  end.

(** One call.  [None] is undefined behaviour: an access outside a live
    object, to a field that was never stored, or past the end of a buffer. *)
Definition step {W R : Type} (e : env W) (c : call R) (s : state W)
  : option (R * state W) :=
  match c in call R return option (R * state W) with
  | Malloc k =>
      let '(ok, w) := env_malloc e k (world s) in
      if ok then
        let p := fresh_addr (heap s) in
        Some (p, Build_state (<[p := blank k]> (heap s)) w
                   (trace s ++ [EvMalloc k p]))
      else Some (NULL, Build_state (heap s) w (trace s ++ [EvMalloc k NULL]))
  | Free p =>
      match heap s !! p with
      | Some (Bgpio_desc _ _) | Some (Blinux_gpio_desc _ _) =>
          Some (tt, Build_state (delete p (heap s)) (world s)
                      (trace s ++ [EvFree p]))
      | _ => None
      end
  | Load p f =>
      b ← heap s !! p;
      v ← block_load f b;
      Some (v, s)
  | Store p f v =>
      b ← heap s !! p;
      b' ← block_store f v b;
      Some (tt, Build_state (<[p := b']> (heap s)) (world s)
                  (trace s ++ [EvStore p f v]))
  | Local_char =>
      let '(c, w) := env_local_char e (world s) in
      Some (c, Build_state (heap s) w (trace s))
  | Open path fl =>
      let '(fd, w) := env_open e path fl (world s) in
      Some (fd, Build_state (heap s) w (trace s ++ [EvOpen path fl fd]))
  | Write fd buf count =>
      if (count <=? length buf)%nat then
        let bytes := firstn count buf in
        let '(r, w) := env_write e fd bytes (world s) in
        let ret := ssize count r in
        Some (ret, Build_state (heap s) w (trace s ++ [EvWrite fd bytes ret]))
      else None
  | Read fd buf count =>
      if (count <=? length buf)%nat then
        let '(r, w) := env_read e fd count (world s) in
        match r with
        | None =>
            Some ((-1, buf),
                  Build_state (heap s) w (trace s ++ [EvRead fd count (-1) []]))
        | Some bytes =>
            let got := firstn count bytes in
            let ret := Z.of_nat (length got) in
            Some ((ret, got ++ skipn (length got) buf),
                  Build_state (heap s) w (trace s ++ [EvRead fd count ret got]))
        end
      else None
  | Close fd =>
      let '(ret, w) := env_close e fd (world s) in
      Some (ret, Build_state (heap s) w (trace s ++ [EvClose fd ret]))
  | Printf msg =>
      Some (tt, Build_state (heap s) (world s) (trace s ++ [EvPrintf msg]))
  end.

(** Programs are finite trees, so [run] is total: it ends with a result and
    a state, or with [None] at the first undefined step. *)
Fixpoint run {W A : Type} (e : env W) (p : prog A) (s : state W)
  : option (A * state W) :=
  match p with
  | Ret a => Some (a, s)
  | Vis c k =>
      match step e c s with
      | Some (r, s') => run e (k r) s'
      | None => None
      end
  end.

(** ** stdio *)

Definition digit_char (d : Z) : ascii := ascii_of_nat (48 + Z.to_nat d).

(** The digits of a non-negative [n], most significant first, in front of
    [acc].  [fuel] bounds the number of divisions by ten. *)
Fixpoint utoa (fuel : nat) (n : Z) (acc : string) : string :=
  let acc' := String (digit_char (n mod 10)) acc in
  match fuel with
  | O => acc'
  | S f => if n <? 10 then acc' else utoa f (n / 10) acc'
  end.

(** [sprintf(buf, "%d", n)]: the text left in [buf]; the value returned is
    its length.  A number has no more decimal digits than binary ones. *)
Definition sprintf_d (n : Z) : string :=
  if n <? 0 then String "-" (utoa (Z.to_nat (Z.log2 (- n))) (- n) EmptyString)
  else utoa (Z.to_nat (Z.log2 n)) n EmptyString.

(** The bytes of the array that holds a C string: its characters and the
    terminating NUL. *)
Definition c_str (s : string) : list ascii := list_ascii_of_string s ++ [NUL].

Definition nl_cr : string := String "010" (String "013" EmptyString).

Definition export_path : string := "/sys/class/gpio/export".
Definition unexport_path : string := "/sys/class/gpio/unexport".
Definition direction_path (n : Z) : string :=
  "/sys/class/gpio/gpio" +:+ sprintf_d n +:+ "/direction".
Definition value_path (n : Z) : string :=
  "/sys/class/gpio/gpio" +:+ sprintf_d n +:+ "/value".

Definition cant_open_device (func : string) : string :=
  func +:+ ": Can't open device" +:+ nl_cr.
Definition cant_write (func : string) : string :=
  func +:+ ": Can't write to file" +:+ nl_cr.
Definition cant_read (func : string) : string :=
  func +:+ ": Can't read from file" +:+ nl_cr.
Definition cant_close (func : string) : string :=
  func +:+ ": Can't close device" +:+ nl_cr.
Definition cant_open (func path : string) : string :=
  func +:+ ": Can't open " +:+ path +:+ nl_cr.
Definition cant_set_value (func : string) : string :=
  func +:+ ": Can't set value" +:+ nl_cr.

(** ** The driver *)

(** The three labels at the end of [gpio_get], lines 137 to 144: [close],
    [free] and [free_desc]; each falls through to the next. *)
Definition gpio_get_free_desc (descriptor : Z) : prog status :=
  free descriptor;;
  mret FAILURE.

Definition gpio_get_free (linux_desc descriptor : Z) : prog status :=
  free linux_desc;;
  gpio_get_free_desc descriptor.

Definition gpio_get_close (linux_desc descriptor : Z) : prog status :=
  fd ← load linux_desc Fdirection_fd;
  close fd;;
  gpio_get_free linux_desc descriptor.

(** Lines 78 to 145.  [desc] is the address of the caller's handle
    variable. *)
Definition gpio_get (desc : Z) (param : gpio_init_param) : prog status :=
  descriptor ← malloc K_gpio_desc;
  if decide (descriptor = NULL) then mret FAILURE else
  linux_desc ← malloc K_linux_gpio_desc;
  if decide (linux_desc = NULL) then gpio_get_free_desc descriptor else
  store descriptor Fextra linux_desc;;
  store descriptor Fnumber (number param);;
  fd ← open export_path O_WRONLY;
  if fd <? 0 then
    printf (cant_open_device "gpio_get");;
    gpio_get_free linux_desc descriptor
  else
  n ← load descriptor Fnumber;
  let path := sprintf_d n in
  let len := String.length path in
  ret ← write fd (c_str path) len;
  if ret <? 0 then
    printf (cant_write "gpio_get");;
    close fd;;
    gpio_get_free linux_desc descriptor
  else
  ret ← close fd;
  if ret <? 0 then
    printf (cant_close "gpio_get");;
    gpio_get_free linux_desc descriptor
  else
  n ← load descriptor Fnumber;
  let path := direction_path n in
  fd ← open path O_WRONLY;
  store linux_desc Fdirection_fd fd;;
  fd ← load linux_desc Fdirection_fd;
  if fd <? 0 then
    printf (cant_open "gpio_get" path);;
    gpio_get_free linux_desc descriptor
  else
  n ← load descriptor Fnumber;
  let path := value_path n in
  fd ← open path O_WRONLY;
  store linux_desc Fvalue_fd fd;;
  fd ← load linux_desc Fvalue_fd;
  if fd <? 0 then
    printf (cant_open "gpio_get" path);;
    gpio_get_close linux_desc descriptor
  else
  store desc Fderef descriptor;;
  mret SUCCESS.

(** Lines 153 to 159. *)
Definition gpio_get_optional (desc : Z) (param : gpio_init_param) : prog status :=
  gpio_get desc param;;
  mret SUCCESS.

(** Lines 166 to 211. *)
Definition gpio_remove (desc : Z) : prog status :=
  linux_desc ← load desc Fextra;
  fd ← load linux_desc Fdirection_fd;
  ret ← close fd;
  if ret <? 0 then
    printf (cant_close "gpio_remove");;
    mret FAILURE
  else
  fd ← load linux_desc Fvalue_fd;
  ret ← close fd;
  if ret <? 0 then
    printf (cant_close "gpio_remove");;
    mret FAILURE
  else
  fd ← open unexport_path O_WRONLY;
  if fd <? 0 then
    printf (cant_open_device "gpio_remove");;
    mret FAILURE
  else
  n ← load desc Fnumber;
  let path := sprintf_d n in
  let len := String.length path in
  ret ← write fd (c_str path) len;
  if ret <? 0 then
    printf (cant_write "gpio_remove");;
    mret FAILURE
  else
  ret ← close fd;
  if ret <? 0 then
    printf (cant_close "gpio_remove");;
    mret FAILURE
  else
  extra ← load desc Fextra;
  free extra;;
  free desc;;
  mret SUCCESS.

(** Lines 221 to 239.  The literals are arrays of two bytes, the character
    and the terminating NUL, and both are written. *)
Definition gpio_set_value (desc : Z) (value : Z) : prog status :=
  linux_desc ← load desc Fextra;
  fd ← load linux_desc Fvalue_fd;
  ret ← (if decide (value ≠ 0) then write fd (c_str "1") 2
         else write fd (c_str "0") 2);
  if ret <? 0 then
    printf (cant_write "gpio_set_value");;
    mret FAILURE
  else
  mret SUCCESS.

(** Lines 249 to 270.  [value] is the address of the caller's [uint8_t];
    [data] is declared without a value and [read] is given its address. *)
Definition gpio_get_value (desc : Z) (value : Z) : prog status :=
  linux_desc ← load desc Fextra;
  data ← local_char;
  fd ← load linux_desc Fvalue_fd;
  '(ret, buf) ← read fd [data] 1;
  let data := hd data buf in
  if ret <? 0 then
    printf (cant_read "gpio_get_value");;
    mret FAILURE
  else
  (if decide (data = "0"%char) then store value Fderef GPIO_LOW
   else store value Fderef GPIO_HIGH);;
  mret SUCCESS.

(** Lines 277 to 291. *)
Definition gpio_direction_input (desc : Z) : prog status :=
  linux_desc ← load desc Fextra;
  fd ← load linux_desc Fdirection_fd;
  ret ← write fd (c_str "in") 3;
  if ret <? 0 then
    printf (cant_write "gpio_direction_input");;
    mret FAILURE
  else
  mret SUCCESS.

(** Lines 301 to 322. *)
Definition gpio_direction_output (desc : Z) (value : Z) : prog status :=
  linux_desc ← load desc Fextra;
  fd ← load linux_desc Fdirection_fd;
  ret ← write fd (c_str "out") 4;
  if ret <? 0 then
    printf (cant_write "gpio_direction_output");;
    mret FAILURE
  else
  ret ← gpio_set_value desc value;
  if decide (ret ≠ SUCCESS) then
    printf (cant_set_value "gpio_direction_output");;
    mret FAILURE
  else
  mret SUCCESS.

(** An environment in which every call succeeds except the [k]-th one
    (counted from 0, allocations included); the world counts the calls.
    File descriptors are handed out from 3 on, an uninitialised local holds
    [stack], and a read delivers [input]. *)
Definition scripted (k : nat) (stack : ascii) (input : list ascii) : env nat := {|
  env_malloc := fun _ w => (negb (w =? k)%nat, S w);
  env_local_char := fun w => (stack, w);
  env_open := fun _ _ w => (if (w =? k)%nat then -1 else 3 + Z.of_nat w, S w);
  env_write := fun _ b w =>
    (if (w =? k)%nat then None else Some (length b), S w);
  env_read := fun _ _ w =>
    (if (w =? k)%nat then None else Some input, S w);
  env_close := fun _ w => (if (w =? k)%nat then -1 else 0, S w)
|}.

Definition init_state (h : gmap Z block) : state nat := Build_state h O [].

(** A heap with the handle of pin 17 at 10, a [uint8_t] at 20 and a handle
    variable at 30. *)
Definition demo_heap : gmap Z block :=
  list_to_map [(10, Bgpio_desc (Some 17) (Some 11));
               (11, Blinux_gpio_desc (Some 4) (Some 5));
               (20, Bu8 7);
               (30, Bptr NULL)].

(** Scenario S1 of the specification, as a caller would write it: acquire,
    and on success release the handle found in the handle variable. *)
Definition acquire_release (desc : Z) (param : gpio_init_param) : prog status :=
  r ← gpio_get desc param;
  if decide (r = SUCCESS) then
    h ← load desc Fderef;
    gpio_remove h
  else mret r.

(** A handle as [gpio_get] leaves it: the descriptor at [desc] holds the
    pin number and points to the Linux part, which holds the two slots. *)
Definition valid_handle (h : gmap Z block) (desc n ext dfd vfd : Z) : Prop :=
  h !! desc = Some (Bgpio_desc (Some n) (Some ext)) /\
  h !! ext = Some (Blinux_gpio_desc (Some dfd) (Some vfd)).

(** [k] has [d] decimal digits: [d] is the least positive number of digits
    that can hold [k]. *)
Definition has_digits (k : Z) (d : nat) : Prop :=
  (0 < d)%nat /\ k < 10 ^ Z.of_nat d /\
  (10 ^ (Z.of_nat d - 1) <= k \/ (k = 0 /\ d = 1%nat)).

Definition is_digit (c : ascii) : bool :=
  (48 <=? nat_of_ascii c)%nat && (nat_of_ascii c <=? 57)%nat.

(** The number a string of digits denotes, continuing from [acc]. *)
Fixpoint atoi (s : string) (acc : Z) : Z :=
  match s with
  | EmptyString => acc
  | String c s' => atoi s' (10 * acc + (Z.of_nat (nat_of_ascii c) - 48))
  end.

Arguments sprintf_d : simpl never.
Arguments c_str !s /.
Arguments direction_path : simpl never.
Arguments value_path : simpl never.
Arguments cant_open_device : simpl never.
Arguments cant_write : simpl never.
Arguments cant_read : simpl never.
Arguments cant_close : simpl never.
Arguments cant_open : simpl never.
Arguments cant_set_value : simpl never.
Arguments fresh_addr : simpl never.
Arguments gpio_set_value : simpl never.
Arguments gpio_get : simpl never.

(** The two bytes [gpio_set_value] sends for a value. *)
Definition level_bytes (value : Z) : list ascii :=
  if decide (value = 0) then ["0"; NUL]%char else ["1"; NUL]%char.

(** The level [gpio_get_value] reports for a byte. *)
Definition level_of_char (c : ascii) : Z :=
  if decide (c = "0"%char) then GPIO_LOW else GPIO_HIGH.

Arguments level_of_char : simpl never.

(** The calls every run of [gpio_get] that got its two structures starts
    with. *)
Definition acquire_prefix (p q n : Z) : list event :=
  [EvMalloc K_gpio_desc p; EvMalloc K_linux_gpio_desc q;
   EvStore p Fextra q; EvStore p Fnumber n].

(** The eight ways through [gpio_get], one per exit: the status returned,
    the heap left, and the calls made, from a heap [h] for pin [n] with the
    caller's handle variable at [desc]. *)
Inductive gpio_get_outcome (h : gmap Z block) (desc n : Z)
  : status -> gmap Z block -> list event -> Prop :=
| get_no_descriptor :
    gpio_get_outcome h desc n FAILURE h [EvMalloc K_gpio_desc NULL]
| get_no_linux_desc (p : Z) :
    p <> NULL -> h !! p = None ->
    gpio_get_outcome h desc n FAILURE h
      [EvMalloc K_gpio_desc p; EvMalloc K_linux_gpio_desc NULL; EvFree p]
| get_export_open (p q fd : Z) :
    p <> NULL -> q <> NULL -> p <> q -> h !! p = None -> h !! q = None ->
    fd < 0 ->
    gpio_get_outcome h desc n FAILURE h
      (acquire_prefix p q n ++
       [EvOpen export_path O_WRONLY fd;
        EvPrintf (cant_open_device "gpio_get");
        EvFree q; EvFree p])
| get_export_write (p q fd wr c : Z) :
    p <> NULL -> q <> NULL -> p <> q -> h !! p = None -> h !! q = None ->
    0 <= fd -> wr < 0 ->
    gpio_get_outcome h desc n FAILURE h
      (acquire_prefix p q n ++
       [EvOpen export_path O_WRONLY fd;
        EvWrite fd (list_ascii_of_string (sprintf_d n)) wr;
        EvPrintf (cant_write "gpio_get");
        EvClose fd c;
        EvFree q; EvFree p])
| get_export_close (p q fd wr c : Z) :
    p <> NULL -> q <> NULL -> p <> q -> h !! p = None -> h !! q = None ->
    0 <= fd -> 0 <= wr -> c < 0 ->
    gpio_get_outcome h desc n FAILURE h
      (acquire_prefix p q n ++
       [EvOpen export_path O_WRONLY fd;
        EvWrite fd (list_ascii_of_string (sprintf_d n)) wr;
        EvClose fd c;
        EvPrintf (cant_close "gpio_get");
        EvFree q; EvFree p])
| get_direction_open (p q fd wr c dfd : Z) :
    p <> NULL -> q <> NULL -> p <> q -> h !! p = None -> h !! q = None ->
    0 <= fd -> 0 <= wr -> 0 <= c -> dfd < 0 ->
    gpio_get_outcome h desc n FAILURE h
      (acquire_prefix p q n ++
       [EvOpen export_path O_WRONLY fd;
        EvWrite fd (list_ascii_of_string (sprintf_d n)) wr;
        EvClose fd c;
        EvOpen (direction_path n) O_WRONLY dfd;
        EvStore q Fdirection_fd dfd;
        EvPrintf (cant_open "gpio_get" (direction_path n));
        EvFree q; EvFree p])
| get_value_open (p q fd wr c dfd vfd c' : Z) :
    p <> NULL -> q <> NULL -> p <> q -> h !! p = None -> h !! q = None ->
    0 <= fd -> 0 <= wr -> 0 <= c -> 0 <= dfd -> vfd < 0 ->
    gpio_get_outcome h desc n FAILURE h
      (acquire_prefix p q n ++
       [EvOpen export_path O_WRONLY fd;
        EvWrite fd (list_ascii_of_string (sprintf_d n)) wr;
        EvClose fd c;
        EvOpen (direction_path n) O_WRONLY dfd;
        EvStore q Fdirection_fd dfd;
        EvOpen (value_path n) O_WRONLY vfd;
        EvStore q Fvalue_fd vfd;
        EvPrintf (cant_open "gpio_get" (value_path n));
        EvClose dfd c';
        EvFree q; EvFree p])
| get_published (p q fd wr c dfd vfd : Z) :
    p <> NULL -> q <> NULL -> p <> q -> h !! p = None -> h !! q = None ->
    0 <= fd -> 0 <= wr -> 0 <= c -> 0 <= dfd -> 0 <= vfd ->
    gpio_get_outcome h desc n SUCCESS
      (<[desc := Bptr p]>
         (<[q := Blinux_gpio_desc (Some dfd) (Some vfd)]>
            (<[p := Bgpio_desc (Some n) (Some q)]> h)))
      (acquire_prefix p q n ++
       [EvOpen export_path O_WRONLY fd;
        EvWrite fd (list_ascii_of_string (sprintf_d n)) wr;
        EvClose fd c;
        EvOpen (direction_path n) O_WRONLY dfd;
        EvStore q Fdirection_fd dfd;
        EvOpen (value_path n) O_WRONLY vfd;
        EvStore q Fvalue_fd vfd;
        EvStore desc Fderef p]).

(** ** Notions for the further properties *)

(** The six ways through [gpio_remove], one per exit: the status returned,
    the heap left, and the calls made, for the handle at [desc] of pin [n]
    whose Linux part is at [ext] with slots [dfd] and [vfd]. *)
Inductive gpio_remove_outcome (h : gmap Z block) (desc n ext dfd vfd : Z)
  : status -> gmap Z block -> list event -> Prop :=
| remove_close_direction (c1 : Z) :
    c1 < 0 ->
    gpio_remove_outcome h desc n ext dfd vfd FAILURE h
      [EvClose dfd c1; EvPrintf (cant_close "gpio_remove")]
| remove_close_value (c1 c2 : Z) :
    0 <= c1 -> c2 < 0 ->
    gpio_remove_outcome h desc n ext dfd vfd FAILURE h
      [EvClose dfd c1; EvClose vfd c2; EvPrintf (cant_close "gpio_remove")]
| remove_unexport_open (c1 c2 fd : Z) :
    0 <= c1 -> 0 <= c2 -> fd < 0 ->
    gpio_remove_outcome h desc n ext dfd vfd FAILURE h
      [EvClose dfd c1; EvClose vfd c2;
       EvOpen unexport_path O_WRONLY fd;
       EvPrintf (cant_open_device "gpio_remove")]
| remove_unexport_write (c1 c2 fd wr : Z) :
    0 <= c1 -> 0 <= c2 -> 0 <= fd -> wr < 0 ->
    gpio_remove_outcome h desc n ext dfd vfd FAILURE h
      [EvClose dfd c1; EvClose vfd c2;
       EvOpen unexport_path O_WRONLY fd;
       EvWrite fd (list_ascii_of_string (sprintf_d n)) wr;
       EvPrintf (cant_write "gpio_remove")]
| remove_unexport_close (c1 c2 fd wr c3 : Z) :
    0 <= c1 -> 0 <= c2 -> 0 <= fd -> 0 <= wr -> c3 < 0 ->
    gpio_remove_outcome h desc n ext dfd vfd FAILURE h
      [EvClose dfd c1; EvClose vfd c2;
       EvOpen unexport_path O_WRONLY fd;
       EvWrite fd (list_ascii_of_string (sprintf_d n)) wr;
       EvClose fd c3;
       EvPrintf (cant_close "gpio_remove")]
| remove_done (c1 c2 fd wr c3 : Z) :
    0 <= c1 -> 0 <= c2 -> 0 <= fd -> 0 <= wr -> 0 <= c3 ->
    gpio_remove_outcome h desc n ext dfd vfd SUCCESS
      (delete desc (delete ext h))
      [EvClose dfd c1; EvClose vfd c2;
       EvOpen unexport_path O_WRONLY fd;
       EvWrite fd (list_ascii_of_string (sprintf_d n)) wr;
       EvClose fd c3;
       EvFree ext; EvFree desc].

(** One occurrence of [fd] less. *)
Fixpoint remove_one (fd : Z) (l : list Z) : list Z :=
  match l with
  | [] => []
  | x :: l' => if decide (x = fd) then l' else x :: remove_one fd l'
  end.

(** The descriptors a program holds after a call, from those it held
    before: an [open] that did not fail adds the one it returned, a [close]
    takes the one it was given away, whatever it returned. *)
Definition fd_event (held : list Z) (ev : event) : list Z :=
  match ev with
  | EvOpen _ _ fd => if fd <? 0 then held else fd :: held
  | EvClose fd _ => remove_one fd held
  | _ => held
  end.

(** The descriptors obtained and not yet passed to [close] after the calls
    [evs], most recent first. *)
Definition unclosed (evs : list event) (held : list Z) : list Z :=
  fold_left fd_event evs held.

(** The operations a caller makes on a handle between acquire and
    release. *)
Inductive io_op : Set :=
| Op_set_value (value : Z)
| Op_get_value (value : Z)
| Op_direction_input
| Op_direction_output (value : Z).

Definition io_call (desc : Z) (o : io_op) : prog status :=
  match o with
  | Op_set_value v => gpio_set_value desc v
  | Op_get_value cell => gpio_get_value desc cell
  | Op_direction_input => gpio_direction_input desc
  | Op_direction_output v => gpio_direction_output desc v
  end.

(** The operations [ops] on one handle, one after the other, whatever each
    returns; the result is the list of what they returned. *)
Fixpoint io_seq (desc : Z) (ops : list io_op) : prog (list status) :=
  match ops with
  | [] => mret []
  | o :: ops' =>
      r ← io_call desc o;
      rs ← io_seq desc ops';
      mret (r :: rs)
  end.

(** The [uint8_t] variables the operations [ops] store through. *)
Fixpoint cells_of (ops : list io_op) : list Z :=
  match ops with
  | [] => []
  | Op_get_value cell :: ops' => cell :: cells_of ops'
  | _ :: ops' => cells_of ops'
  end.

(** What a call of an I/O operation on the handle with slots [dfd] and
    [vfd] may be: a write to one of the slots, a read of one byte from the
    value slot, the store of a level through an output pointer, or a
    diagnostic. *)
Definition io_event (dfd vfd : Z) (ev : event) : bool :=
  match ev with
  | EvWrite fd _ _ => bool_decide (fd = dfd) || bool_decide (fd = vfd)
  | EvRead fd count _ _ => bool_decide (fd = vfd) && bool_decide (count = 1%nat)
  | EvStore _ Fderef v => bool_decide (v = GPIO_LOW) || bool_decide (v = GPIO_HIGH)
  | EvPrintf _ => true
  | _ => false
  end.

(** The number a text with an optional minus sign denotes. *)
Definition atoi_signed (s : string) : Z :=
  match s with
  | String "-" s' => - atoi s' 0
  | _ => atoi s 0
  end.

(** The 32-bit [int] values. *)
Definition int32 (n : Z) : Prop := - 2 ^ 31 <= n < 2 ^ 31.

(** The size of the [path] buffer of [gpio_get] and [gpio_remove]. *)
Definition PATH_SIZE : nat := 64.

(** ** Symbolic execution *)

Ltac ask_env :=
  match goal with
  | |- context [env_malloc ?e ?k ?w] =>
      let ok := fresh "ok" in let w' := fresh "w" in
      destruct (env_malloc e k w) as [ok w'] eqn:?; destruct ok
  | |- context [env_local_char ?e ?w] =>
      let c := fresh "c" in let w' := fresh "w" in
      destruct (env_local_char e w) as [c w'] eqn:?
  | |- context [env_open ?e ?p ?f ?w] =>
      let fd := fresh "fd" in let w' := fresh "w" in
      destruct (env_open e p f w) as [fd w'] eqn:?
  | |- context [env_write ?e ?fd ?b ?w] =>
      let r := fresh "r" in let w' := fresh "w" in
      destruct (env_write e fd b w) as [r w'] eqn:?
  | |- context [env_read ?e ?fd ?n ?w] =>
      let r := fresh "r" in let w' := fresh "w" in
      destruct (env_read e fd n w) as [r w'] eqn:?
  | |- context [env_close ?e ?fd ?w] =>
      let r := fresh "r" in let w' := fresh "w" in
      destruct (env_close e fd w) as [r w'] eqn:?
  end.

Ltac branch :=
  match goal with
  | |- context [?x <? 0] =>
      let H := fresh "Hret" in destruct (Z.ltb_spec x 0) as [H | H]
  end.

Ltac leaf :=
  repeat eexists; repeat split; intros; cbn in *; rewrite <- ?app_assoc;
  first [reflexivity | lia | discriminate | congruence].

(** As [leaf], for a statement that ends with a fact about the text written,
    kept in the context as [Htext]. *)
Ltac leaf_text :=
  repeat eexists; repeat split; intros; cbn in *; rewrite <- ?app_assoc;
  first [ reflexivity | lia | discriminate | congruence
        | match goal with
          | Htext : 0 <= ?n -> _ |- _ =>
              solve [ apply Htext; assumption
                    | apply (proj1 (proj2 (Htext ltac:(assumption))))
                    | apply (proj2 (proj2 (Htext ltac:(assumption)))); assumption ]
          end ].

Ltac heap_lookup :=
  repeat first [ rewrite lookup_insert_eq
               | rewrite lookup_insert_ne by congruence
               | rewrite lookup_delete_ne by congruence ];
  cbn.

(** Two heaps built from the same one by stores and frees at [p], [q] and
    [d] are equal when they agree at these three addresses. *)
Ltac heap_eq p q d :=
  let i := fresh "i" in
  apply map_eq; intros i;
  destruct (decide (i = p)) as [-> |];
  [| destruct (decide (i = q)) as [-> |];
     [| destruct (decide (i = d)) as [-> |]]];
  simplify_map_eq; done.

(** Evaluates [unclosed] on a trace whose results are known by sign. *)
Ltac held_fds :=
  unfold unclosed, acquire_prefix; cbn [fold_left fd_event app remove_one];
  repeat (first
    [ match goal with
      | H : ?x < 0 |- context [?x <? 0] => rewrite (proj2 (Z.ltb_lt x 0) H)
      | H : 0 <= ?x |- context [?x <? 0] => rewrite (proj2 (Z.ltb_ge x 0) H)
      end
    | rewrite decide_True by reflexivity ];
    cbn [fold_left fd_event app remove_one]).

(** Checks that the calls of a concrete trace are I/O calls. *)
Ltac io_events :=
  cbn [app forallb io_event];
  repeat match goal with
         | |- context [bool_decide (?x = ?x)] =>
             rewrite (bool_decide_eq_true_2 (x = x) eq_refl)
         end;
  rewrite ?orb_true_r; reflexivity.

(** ** The monad and the allocator *)

Lemma run_bind {W A B} (e : env W) (p : prog A) (f : A -> prog B) (s : state W) :
  run e (bind p f) s =
  match run e p s with
  | Some (a, s') => run e (f a) s'
  | None => None
  end.
Proof.
  revert s. induction p as [a | R c k IH]; intros s; simpl.
  - reflexivity.
  - destruct (step e c s) as [[r s'] |]; [apply IH | reflexivity].
Qed.

Lemma run_mbind {W A B} (e : env W) (p : prog A) (f : A -> prog B) (s : state W) :
  run e (p ≫= f) s =
  match run e p s with
  | Some (a, s') => run e (f a) s'
  | None => None
  end.
Proof. apply run_bind. Qed.

Lemma fresh_addr_not_null (h : gmap Z block) : fresh_addr h <> NULL.
Proof.
  unfold fresh_addr. intros E.
  pose proof (is_fresh ({[NULL]} ∪ dom h)) as F. rewrite E in F. set_solver.
Qed.

Lemma fresh_addr_free (h : gmap Z block) : h !! fresh_addr h = None.
Proof.
  unfold fresh_addr. apply not_elem_of_dom.
  pose proof (is_fresh ({[NULL]} ∪ dom h)) as F. set_solver.
Qed.

Lemma alloc_free (h : gmap Z block) (p : Z) (b : block) :
  h !! p = None -> delete p (<[p := b]> h) = h.
Proof.
  intros Hp. apply map_eq. intros i.
  destruct (decide (i = p)) as [-> | Hne]; simplify_map_eq; done.
Qed.

(** ** The decimal printer *)

Lemma digit_char_code (d : Z) :
  0 <= d < 10 -> nat_of_ascii (digit_char d) = (48 + Z.to_nat d)%nat.
Proof.
  intros Hd. unfold digit_char. apply nat_ascii_embedding. lia.
Qed.

Lemma pow10_S (d : nat) :
  10 ^ Z.of_nat (S d) = 10 * 10 ^ Z.of_nat d /\
  10 ^ (Z.of_nat (S d) + 1) = 10 * 10 ^ (Z.of_nat d + 1).
Proof.
  split.
  - rewrite Nat2Z.inj_succ, Z.pow_succ_r by lia. reflexivity.
  - rewrite Nat2Z.inj_succ, <- Z.pow_succ_r by lia. f_equal.
Qed.

Lemma utoa_length (d : nat) : forall (fuel : nat) (n : Z) (acc : string),
  (d <= fuel)%nat -> 10 ^ Z.of_nat d <= n < 10 ^ (Z.of_nat d + 1) ->
  String.length (utoa fuel n acc) = (S d + String.length acc)%nat.
Proof.
  induction d as [| d IH]; intros fuel n acc Hf Hn.
  - change (10 ^ Z.of_nat 0) with 1 in Hn. change (10 ^ (Z.of_nat 0 + 1)) with 10 in Hn.
    destruct fuel as [| f]; simpl.
    + reflexivity.
    + destruct (Z.ltb_spec n 10); [reflexivity | lia].
  - destruct fuel as [| f]; [lia |].
    destruct (pow10_S d) as [H10 H10'].
    assert (Hpos : 0 < 10 ^ Z.of_nat d) by (apply Z.pow_pos_nonneg; lia).
    simpl. destruct (Z.ltb_spec n 10); [nia |].
    rewrite IH.
    + simpl. lia.
    + lia.
    + split.
      * apply Z.div_le_lower_bound; lia.
      * apply Z.div_lt_upper_bound; lia.
Qed.

Lemma utoa_atoi (d : nat) : forall (fuel : nat) (n : Z) (acc : string) (a : Z),
  (d <= fuel)%nat -> 10 ^ Z.of_nat d <= n < 10 ^ (Z.of_nat d + 1) ->
  atoi (utoa fuel n acc) a = atoi acc (a * 10 ^ (Z.of_nat d + 1) + n).
Proof.
  induction d as [| d IH]; intros fuel n acc a Hf Hn.
  - change (10 ^ Z.of_nat 0) with 1 in Hn. change (10 ^ (Z.of_nat 0 + 1)) with 10 in *.
    assert (E : atoi (String (digit_char (n mod 10)) acc) a = atoi acc (a * 10 + n)).
    { simpl atoi. rewrite Z.mod_small by lia.
      rewrite digit_char_code by lia. f_equal. lia. }
    destruct fuel as [| f]; simpl utoa; [exact E |].
    destruct (Z.ltb_spec n 10); [exact E | lia].
  - destruct fuel as [| f]; [lia |].
    destruct (pow10_S d) as [H10 H10'].
    assert (Hpos : 0 < 10 ^ Z.of_nat d) by (apply Z.pow_pos_nonneg; lia).
    simpl utoa. destruct (Z.ltb_spec n 10); [nia |].
    rewrite IH.
    + simpl atoi. rewrite digit_char_code by (apply Z.mod_pos_bound; lia).
      f_equal. rewrite H10'.
      pose proof (Z.mod_pos_bound n 10 ltac:(lia)) as Hm.
      replace (Z.of_nat (48 + Z.to_nat (n mod 10)) - 48) with (n mod 10) by lia.
      transitivity (a * (10 * 10 ^ (Z.of_nat d + 1)) + (10 * (n / 10) + n mod 10));
        [ring | f_equal; symmetry; apply Z.div_mod; lia].
    + lia.
    + split.
      * apply Z.div_le_lower_bound; lia.
      * apply Z.div_lt_upper_bound; lia.
Qed.

Lemma utoa_digits (fuel : nat) : forall (n : Z) (acc : string),
  0 <= n ->
  Forall (fun c => is_digit c = true) (list_ascii_of_string acc) ->
  Forall (fun c => is_digit c = true) (list_ascii_of_string (utoa fuel n acc)).
Proof.
  assert (D : forall n acc, 0 <= n ->
    Forall (fun c => is_digit c = true) (list_ascii_of_string acc) ->
    Forall (fun c => is_digit c = true)
      (list_ascii_of_string (String (digit_char (n mod 10)) acc))).
  { intros n acc Hn Hacc. simpl. constructor; [| exact Hacc].
    pose proof (Z.mod_pos_bound n 10 ltac:(lia)) as Hm.
    unfold is_digit. rewrite digit_char_code by lia.
    apply andb_true_intro. split; apply Nat.leb_le; lia. }
  induction fuel as [| f IH]; intros n acc Hn Hacc; simpl utoa.
  - apply D; assumption.
  - destruct (Z.ltb_spec n 10); [apply D; assumption |].
    apply IH; [apply Z.div_pos; lia | apply D; assumption].
Qed.

(** The binary length bounds the decimal one, so the fuel suffices. *)
Lemma digits_fuel (d : nat) (n : Z) :
  10 ^ Z.of_nat d <= n -> (d <= Z.to_nat (Z.log2 n))%nat.
Proof.
  intros Hn.
  assert (H2 : 2 ^ Z.of_nat d <= n).
  { etransitivity; [| exact Hn]. apply Z.pow_le_mono_l. lia. }
  apply Z.log2_le_mono in H2. rewrite Z.log2_pow2 in H2 by lia. lia.
Qed.

Lemma decimal_bracket (n : Z) :
  1 <= n -> exists d : nat, 10 ^ Z.of_nat d <= n < 10 ^ (Z.of_nat d + 1).
Proof.
  intros Hn. assert (H0 : 0 <= n) by lia. revert Hn. pattern n.
  apply Z_lt_induction; [| exact H0]. clear n H0. intros n IH Hn.
  destruct (Z_lt_le_dec n 10) as [Hlt | Hge].
  - exists 0%nat. change (10 ^ Z.of_nat 0) with 1.
    change (10 ^ (Z.of_nat 0 + 1)) with 10. lia.
  - pose proof (Z.div_mod n 10 ltac:(lia)) as Hdm.
    pose proof (Z.mod_pos_bound n 10 ltac:(lia)) as Hm.
    destruct (IH (n / 10)) as [d Hd]; [lia | lia |].
    exists (S d).
    destruct (pow10_S d) as [-> ->]. lia.
Qed.

Lemma sprintf_d_length (n : Z) (d : nat) :
  0 <= n -> has_digits n d -> String.length (sprintf_d n) = d.
Proof.
  intros Hn (Hd & Hlt & Hge). unfold sprintf_d.
  destruct (Z.ltb_spec n 0); [lia |].
  destruct Hge as [Hge | [-> ->]]; [| reflexivity].
  destruct d as [| d]; [lia |].
  replace (Z.of_nat (S d) - 1) with (Z.of_nat d) in Hge by lia.
  replace (Z.of_nat (S d)) with (Z.of_nat d + 1) in Hlt by lia.
  rewrite (utoa_length d); simpl; [lia | apply digits_fuel; lia | lia].
Qed.

Lemma sprintf_d_atoi (n : Z) : 0 <= n -> atoi (sprintf_d n) 0 = n.
Proof.
  intros Hn. unfold sprintf_d. destruct (Z.ltb_spec n 0); [lia |].
  destruct (Z.eq_dec n 0) as [-> | Hnz]; [reflexivity |].
  destruct (decimal_bracket n ltac:(lia)) as [d Hd].
  rewrite (utoa_atoi d); [simpl; lia | apply digits_fuel; lia | lia].
Qed.

Lemma sprintf_d_digits (n : Z) :
  0 <= n -> Forall (fun c => is_digit c = true) (list_ascii_of_string (sprintf_d n)).
Proof.
  intros Hn. unfold sprintf_d. destruct (Z.ltb_spec n 0); [lia |].
  apply utoa_digits; [assumption | constructor].
Qed.

Lemma list_ascii_length (s : string) :
  length (list_ascii_of_string s) = String.length s.
Proof. induction s as [| c s IH]; simpl; [reflexivity | f_equal; exact IH]. Qed.

Lemma c_str_fits (s : string) : (String.length s <=? length (c_str s))%nat = true.
Proof.
  apply Nat.leb_le. unfold c_str.
  rewrite length_app, list_ascii_length. lia.
Qed.

Lemma c_str_prefix (s : string) :
  firstn (String.length s) (c_str s) = list_ascii_of_string s.
Proof.
  unfold c_str. rewrite <- list_ascii_length.
  rewrite firstn_app, Nat.sub_diag, firstn_all. simpl. apply app_nil_r.
Qed.

(** * The driver against an arbitrary environment *)

Section driver.
Context {W : Type} (e : env W).

(** ** The I/O operations *)

(** What [gpio_set_value] does on a valid handle, as one equation. *)
Lemma gpio_set_value_run (s : state W) (desc n ext dfd vfd value : Z) :
  valid_handle (heap s) desc n ext dfd vfd ->
  run e (gpio_set_value desc value) s =
  let rw := env_write e vfd (level_bytes value) (world s) in
  let ret := ssize 2 rw.1 in
  Some (if ret <? 0 then FAILURE else SUCCESS,
        Build_state (heap s) rw.2
          (trace s ++ EvWrite vfd (level_bytes value) ret ::
             (if ret <? 0 then [EvPrintf (cant_write "gpio_set_value")] else []))).
Proof.
  intros [Hd He]. unfold gpio_set_value, level_bytes.
  cbn. rewrite Hd. cbn. rewrite He. cbn.
  destruct (decide (value = 0)) as [Hz | Hnz].
  - destruct (decide (value <> 0)) as [Hnz | _]; [contradiction |].
    cbn. ask_env. cbn. branch; cbn; rewrite <- ?app_assoc; reflexivity.
  - destruct (decide (value <> 0)) as [_ | Hz]; [| contradiction].
    cbn. ask_env. cbn. branch; cbn; rewrite <- ?app_assoc; reflexivity.
Qed.

(** C7.  On a valid handle [gpio_direction_input] makes one call, a write
    of the three bytes i, n, NUL to the direction slot; it returns SUCCESS
    exactly when that write returns a non-negative count, and FAILURE (after
    a diagnostic) otherwise. *)
Theorem gpio_direction_input_writes_in (s : state W)
    (desc n ext dfd vfd : Z) :
  valid_handle (heap s) desc n ext dfd vfd ->
  exists (r : status) (s' : state W) (ret : Z),
    run e (gpio_direction_input desc) s = Some (r, s') /\
    ret = ssize 3 (env_write e dfd ["i"; "n"; NUL]%char (world s)).1 /\
    heap s' = heap s /\
    (0 <= ret ->
       r = SUCCESS /\
       trace s' = trace s ++ [EvWrite dfd ["i"; "n"; NUL]%char ret]) /\
    (ret < 0 ->
       r = FAILURE /\
       trace s' = trace s ++ [EvWrite dfd ["i"; "n"; NUL]%char ret;
                              EvPrintf (cant_write "gpio_direction_input")]) /\
    (r = SUCCESS <-> 0 <= ret).
Proof.
  intros [Hd He]. unfold gpio_direction_input.
  cbn. rewrite Hd. cbn. rewrite He. cbn.
  ask_env. cbn. branch; cbn; leaf.
Qed.

(** C5.  On a valid handle [gpio_set_value] makes one call, a write to the
    value slot of the two bytes 1, NUL when the value is non-zero and
    0, NUL when it is zero; it returns SUCCESS exactly when that write
    returns a non-negative count, and FAILURE otherwise. *)
Theorem gpio_set_value_writes_level (s : state W)
    (desc n ext dfd vfd value : Z) :
  valid_handle (heap s) desc n ext dfd vfd ->
  exists (r : status) (s' : state W) (bytes : list ascii) (ret : Z),
    run e (gpio_set_value desc value) s = Some (r, s') /\
    (value <> 0 -> bytes = ["1"; NUL]%char) /\
    (value = 0 -> bytes = ["0"; NUL]%char) /\
    ret = ssize 2 (env_write e vfd bytes (world s)).1 /\
    heap s' = heap s /\
    (0 <= ret ->
       r = SUCCESS /\ trace s' = trace s ++ [EvWrite vfd bytes ret]) /\
    (ret < 0 ->
       r = FAILURE /\
       trace s' = trace s ++ [EvWrite vfd bytes ret;
                              EvPrintf (cant_write "gpio_set_value")]) /\
    (r = SUCCESS <-> 0 <= ret).
Proof.
  intros Hh. rewrite (gpio_set_value_run s desc n ext dfd vfd value Hh). cbn zeta.
  exists (if ssize 2 (env_write e vfd (level_bytes value) (world s)).1 <? 0
          then FAILURE else SUCCESS).
  eexists. exists (level_bytes value). eexists.
  split; [reflexivity |].
  split; [unfold level_bytes; destruct (decide (value = 0)); congruence |].
  split; [unfold level_bytes; destruct (decide (value = 0)); congruence |].
  split; [reflexivity |].
  branch; cbn; leaf.
Qed.

(** C6.  On a valid handle [gpio_direction_output] first writes the four
    bytes o, u, t, NUL to the direction slot; when that write fails it
    returns FAILURE at once; otherwise it runs [gpio_set_value] with the
    caller's value, which writes the level to the value slot, and returns
    FAILURE when that fails.  It returns SUCCESS only when both succeed. *)
Theorem gpio_direction_output_writes_out_then_sets (s : state W)
    (desc n ext dfd vfd value : Z) :
  valid_handle (heap s) desc n ext dfd vfd ->
  let out := ["o"; "u"; "t"; NUL]%char in
  let ret := ssize 4 (env_write e dfd out (world s)).1 in
  let s1 := Build_state (heap s) (env_write e dfd out (world s)).2
              (trace s ++ [EvWrite dfd out ret]) in
  let ret2 := ssize 2 (env_write e vfd (level_bytes value) (world s1)).1 in
  exists (r : status) (s' : state W),
    run e (gpio_direction_output desc value) s = Some (r, s') /\
    heap s' = heap s /\
    (ret < 0 ->
       r = FAILURE /\
       trace s' = trace s ++ [EvWrite dfd out ret;
                              EvPrintf (cant_write "gpio_direction_output")]) /\
    (0 <= ret ->
       exists (r2 : status) (s2 : state W),
         run e (gpio_set_value desc value) s1 = Some (r2, s2) /\
         (r2 = SUCCESS <-> 0 <= ret2) /\
         (r2 = SUCCESS ->
            r = SUCCESS /\ s' = s2 /\
            trace s' = trace s ++ [EvWrite dfd out ret;
                                   EvWrite vfd (level_bytes value) ret2]) /\
         (r2 = FAILURE ->
            r = FAILURE /\
            trace s' = trace s2 ++
                       [EvPrintf (cant_set_value "gpio_direction_output")] /\
            trace s' = trace s ++ [EvWrite dfd out ret;
                                   EvWrite vfd (level_bytes value) ret2;
                                   EvPrintf (cant_write "gpio_set_value");
                                   EvPrintf (cant_set_value "gpio_direction_output")])) /\
    (r = SUCCESS <-> 0 <= ret /\ 0 <= ret2).
Proof.
  intros Hh out ret s1 ret2.
  assert (Hrun2 := gpio_set_value_run s1 desc n ext dfd vfd value Hh).
  subst ret2 s1 ret out.
  destruct Hh as [Hd He]. unfold gpio_direction_output.
  cbn. rewrite Hd. cbn. rewrite He. cbn.
  ask_env. cbn in *. branch; cbn.
  - leaf.
  - rewrite run_mbind, Hrun2. clear Hrun2. cbn.
    ask_env. cbn. branch; cbn.
    + do 2 eexists. split; [reflexivity |]. leaf.
    + do 2 eexists. split; [reflexivity |]. leaf.
Qed.

(** C4.  On a valid handle [gpio_get_value] makes one call, a read of one
    byte from the value slot.  When the count returned is non-negative it
    stores the level of the byte in its buffer (GPIO_LOW for the character
    0, GPIO_HIGH for anything else) through [value] and returns SUCCESS;
    when the read fails it returns FAILURE and what [value] points to is as
    it was. *)
Theorem gpio_get_value_reads_one_byte (s : state W)
    (desc n ext dfd vfd value old : Z) :
  valid_handle (heap s) desc n ext dfd vfd ->
  heap s !! value = Some (Bu8 old) ->
  let data0 := (env_local_char e (world s)).1 in
  let w0 := (env_local_char e (world s)).2 in
  exists (r : status) (s' : state W) (ret : Z) (got : list ascii),
    run e (gpio_get_value desc value) s = Some (r, s') /\
    (length got <= 1)%nat /\
    (ret < 0 <-> (env_read e vfd 1 w0).1 = None) /\
    (ret < 0 ->
       r = FAILURE /\
       heap s' = heap s /\
       heap s' !! value = Some (Bu8 old) /\
       trace s' = trace s ++ [EvRead vfd 1 ret got;
                              EvPrintf (cant_read "gpio_get_value")]) /\
    (0 <= ret ->
       r = SUCCESS /\
       ret = Z.of_nat (length got) /\
       heap s' = <[value := Bu8 (level_of_char (hd data0 got))]> (heap s) /\
       trace s' = trace s ++ [EvRead vfd 1 ret got;
                              EvStore value Fderef (level_of_char (hd data0 got))]) /\
    (forall b : ascii, got = [b] -> hd data0 got = b) /\
    level_of_char "0" = GPIO_LOW /\
    (forall b : ascii, b <> "0"%char -> level_of_char b = GPIO_HIGH).
Proof.
  intros [Hd He] Hv data0 w0. subst data0 w0. unfold gpio_get_value.
  assert (Hlow : level_of_char "0" = GPIO_LOW) by reflexivity.
  assert (Hhigh : forall b : ascii, b <> "0"%char -> level_of_char b = GPIO_HIGH).
  { intros b Hb. unfold level_of_char. destruct (decide (b = "0"%char)); congruence. }
  cbn. rewrite Hd. cbn. ask_env. cbn. rewrite He. cbn.
  ask_env. destruct r as [[| b bytes] |]; cbn.
  - change (Z.of_nat 0 <? 0) with false. cbn iota.
    destruct (decide (c = "0"%char)) as [-> | Hc]; cbn; rewrite Hv; cbn;
      rewrite <- ?app_assoc; exists SUCCESS; eexists; exists 0, [];
      (split; [reflexivity |]); repeat split; intros; cbn in *;
      rewrite ?Hlow, ?Hhigh by assumption;
      first [reflexivity | lia | discriminate | congruence | auto].
  - change (take 0 bytes) with (@nil ascii). cbn.
    change (Z.of_nat 1 <? 0) with false. cbn iota.
    destruct (decide (b = "0"%char)) as [Hb | Hc]; cbn; rewrite Hv; cbn;
      rewrite <- ?app_assoc; exists SUCCESS; eexists; exists 1, [b];
      (split; [reflexivity |]); repeat split; intros; cbn in *;
      rewrite ?Hb, ?Hlow, ?Hhigh by assumption;
      first [reflexivity | lia | discriminate | congruence | auto].
  - exists FAILURE. eexists. exists (-1), [].
    rewrite <- ?app_assoc.
    (split; [reflexivity |]); repeat split; intros; cbn in *;
      first [reflexivity | lia | discriminate | congruence | auto].
Qed.

(** C10.  When the read of [gpio_get_value] transfers nothing and returns
    the count 0, the function still returns SUCCESS and stores through
    [value] the level of its local buffer byte as it was before the read,
    which nothing initialised.  FAILURE is returned only when the read
    itself fails, with a negative count. *)
Theorem gpio_get_value_zero_count (s : state W)
    (desc n ext dfd vfd value old : Z) :
  valid_handle (heap s) desc n ext dfd vfd ->
  heap s !! value = Some (Bu8 old) ->
  let data0 := (env_local_char e (world s)).1 in
  let w0 := (env_local_char e (world s)).2 in
  ((env_read e vfd 1 w0).1 = Some [] ->
   exists s' : state W,
     run e (gpio_get_value desc value) s = Some (SUCCESS, s') /\
     heap s' = <[value := Bu8 (level_of_char data0)]> (heap s) /\
     trace s' = trace s ++ [EvRead vfd 1 0 [];
                            EvStore value Fderef (level_of_char data0)]) /\
  (forall (r : status) (s' : state W),
     run e (gpio_get_value desc value) s = Some (r, s') ->
     r = FAILURE ->
     (env_read e vfd 1 w0).1 = None /\
     trace s' = trace s ++ [EvRead vfd 1 (-1) [];
                            EvPrintf (cant_read "gpio_get_value")]).
Proof.
  intros [Hd He] Hv data0 w0. subst data0 w0. unfold gpio_get_value.
  cbn. rewrite Hd. cbn. ask_env. cbn. rewrite He. cbn.
  ask_env. cbn. split.
  - intros ->. cbn. change (Z.of_nat 0 <? 0) with false. cbn iota.
    assert (Hlow : level_of_char "0" = GPIO_LOW) by reflexivity.
    assert (Hhigh : forall b : ascii, b <> "0"%char -> level_of_char b = GPIO_HIGH).
    { intros b Hb. unfold level_of_char. destruct (decide (b = "0"%char)); congruence. }
    destruct (decide (c = "0"%char)) as [-> | Hc]; cbn; rewrite Hv; cbn;
      rewrite <- ?app_assoc, ?Hlow, ?Hhigh by assumption;
      eexists; repeat split; reflexivity.
  - intros r0 s' Hrun ->. destruct r as [bytes |]; cbn in Hrun.
    + exfalso. revert Hrun.
      match goal with
      | |- context [Z.of_nat ?k <? 0] =>
          replace (Z.of_nat k <? 0) with false by (symmetry; apply Z.ltb_ge; lia)
      end.
      cbn.
      match goal with
      | |- context [decide (?x = ?y)] => destruct (decide (x = y))
      end; cbn; rewrite Hv; cbn; discriminate.
    + injection Hrun as <-. cbn. rewrite <- ?app_assoc. split; reflexivity.
Qed.

(** ** Release *)

(** C2.  On a valid handle [gpio_remove] closes the direction slot, closes
    the value slot, opens /sys/class/gpio/unexport write-only, writes the
    decimal pin number, closes that file and frees the two structures of the
    handle, in this order.  The first call that fails ends it with FAILURE
    after a diagnostic: nothing further is called, nothing done so far is
    undone, and the handle is still allocated.  The handle is freed only
    when all five calls before succeeded.  The bytes written are the
    decimal text of the pin number: for a non-negative number they are
    digits only, denote the number and are as many as it has digits. *)
Theorem gpio_remove_steps (s : state W) (desc n ext dfd vfd : Z) :
  valid_handle (heap s) desc n ext dfd vfd ->
  let digits := list_ascii_of_string (sprintf_d n) in
  exists (r : status) (s' : state W) (c1 c2 fd wr c3 : Z),
    run e (gpio_remove desc) s = Some (r, s') /\
    (c1 < 0 ->
       r = FAILURE /\ heap s' = heap s /\
       trace s' = trace s ++
         [EvClose dfd c1; EvPrintf (cant_close "gpio_remove")]) /\
    (0 <= c1 -> c2 < 0 ->
       r = FAILURE /\ heap s' = heap s /\
       trace s' = trace s ++
         [EvClose dfd c1; EvClose vfd c2;
          EvPrintf (cant_close "gpio_remove")]) /\
    (0 <= c1 -> 0 <= c2 -> fd < 0 ->
       r = FAILURE /\ heap s' = heap s /\
       trace s' = trace s ++
         [EvClose dfd c1; EvClose vfd c2;
          EvOpen "/sys/class/gpio/unexport" O_WRONLY fd;
          EvPrintf (cant_open_device "gpio_remove")]) /\
    (0 <= c1 -> 0 <= c2 -> 0 <= fd -> wr < 0 ->
       r = FAILURE /\ heap s' = heap s /\
       trace s' = trace s ++
         [EvClose dfd c1; EvClose vfd c2;
          EvOpen "/sys/class/gpio/unexport" O_WRONLY fd;
          EvWrite fd digits wr;
          EvPrintf (cant_write "gpio_remove")]) /\
    (0 <= c1 -> 0 <= c2 -> 0 <= fd -> 0 <= wr -> c3 < 0 ->
       r = FAILURE /\ heap s' = heap s /\
       trace s' = trace s ++
         [EvClose dfd c1; EvClose vfd c2;
          EvOpen "/sys/class/gpio/unexport" O_WRONLY fd;
          EvWrite fd digits wr; EvClose fd c3;
          EvPrintf (cant_close "gpio_remove")]) /\
    (0 <= c1 -> 0 <= c2 -> 0 <= fd -> 0 <= wr -> 0 <= c3 ->
       r = SUCCESS /\ heap s' = delete desc (delete ext (heap s)) /\
       trace s' = trace s ++
         [EvClose dfd c1; EvClose vfd c2;
          EvOpen "/sys/class/gpio/unexport" O_WRONLY fd;
          EvWrite fd digits wr; EvClose fd c3;
          EvFree ext; EvFree desc]) /\
    (r = SUCCESS <-> 0 <= c1 /\ 0 <= c2 /\ 0 <= fd /\ 0 <= wr /\ 0 <= c3) /\
    (0 <= n ->
     atoi (sprintf_d n) 0 = n /\
     Forall (fun ch => is_digit ch = true) digits /\
     forall d : nat, has_digits n d -> length digits = d).
Proof.
  intros [Hd He] digits. subst digits.
  assert (Hne : desc <> ext) by (intros ->; rewrite Hd in He; discriminate).
  assert (Htext : 0 <= n ->
            atoi (sprintf_d n) 0 = n /\
            Forall (fun ch => is_digit ch = true)
              (list_ascii_of_string (sprintf_d n)) /\
            forall d : nat, has_digits n d ->
              length (list_ascii_of_string (sprintf_d n)) = d).
  { intros Hn. split; [apply sprintf_d_atoi; exact Hn |].
    split; [apply sprintf_d_digits; exact Hn |].
    intros d Hdig. rewrite list_ascii_length.
    apply sprintf_d_length; assumption. }
  unfold gpio_remove.
  cbn. rewrite Hd. cbn. rewrite He. cbn.
  ask_env. cbn. branch; cbn.
  { exists FAILURE. eexists. exists r, 0, 0, 0, 0. leaf_text. }
  rewrite He. cbn. ask_env. cbn. branch; cbn.
  { exists FAILURE. eexists. exists r, r0, 0, 0, 0. leaf_text. }
  ask_env. cbn. branch; cbn.
  { exists FAILURE. eexists. exists r, r0, fd, 0, 0. leaf_text. }
  rewrite Hd. cbn. rewrite c_str_fits, c_str_prefix.
  ask_env. cbn. branch; cbn.
  { exists FAILURE. eexists.
    exists r, r0, fd, (ssize (String.length (sprintf_d n)) r1), 0. leaf_text. }
  ask_env. cbn. branch; cbn.
  { exists FAILURE. eexists.
    exists r, r0, fd, (ssize (String.length (sprintf_d n)) r1), r2. leaf_text. }
  rewrite Hd. cbn. rewrite He. cbn.
  rewrite lookup_delete_ne, Hd by congruence. cbn.
  exists SUCCESS. eexists.
  exists r, r0, fd, (ssize (String.length (sprintf_d n)) r1), r2. leaf_text.
Qed.

(** ** Acquire *)

(** Every run of [gpio_get] with a handle variable to fill ends, in one of
    the eight ways. *)
Lemma gpio_get_run (s : state W) (desc old : Z)
    (param : gpio_init_param) :
  heap s !! desc = Some (Bptr old) ->
  exists (r : status) (s' : state W) (evs : list event),
    run e (gpio_get desc param) s = Some (r, s') /\
    trace s' = trace s ++ evs /\
    gpio_get_outcome (heap s) desc (number param) r (heap s') evs.
Proof.
  intros Hdesc. unfold gpio_get. cbn.
  ask_env; cbn.
  2: { do 3 eexists. split; [reflexivity |]. split; [reflexivity |]. constructor. }
  pose proof (fresh_addr_not_null (heap s)) as Hp0.
  pose proof (fresh_addr_free (heap s)) as Hp.
  set (p := fresh_addr (heap s)) in *. clearbody p.
  destruct (decide (p = NULL)) as [? | _]; [contradiction |]. cbn.
  ask_env; cbn.
  2: { destruct (decide (NULL = NULL)) as [_ | ?]; [| contradiction]. cbn.
       heap_lookup. do 3 eexists. split; [reflexivity |]. cbn.
       rewrite <- !app_assoc. split; [reflexivity |].
       rewrite alloc_free by assumption. constructor; assumption. }
  pose proof (fresh_addr_not_null (<[p:=Bgpio_desc None None]> (heap s))) as Hq0.
  pose proof (fresh_addr_free (<[p:=Bgpio_desc None None]> (heap s))) as Hq.
  set (q := fresh_addr (<[p:=Bgpio_desc None None]> (heap s))) in *. clearbody q.
  apply lookup_insert_None in Hq as [Hq Hpq].
  assert (Hdp : desc <> p) by congruence.
  assert (Hdq : desc <> q) by congruence.
  destruct (decide (q = NULL)) as [? | _]; [contradiction |]. cbn.
  heap_lookup. heap_lookup.
  assert (Hfail : forall (w' : W) (m : gmap Z block) (evs : list event),
    m = heap s ->
    gpio_get_outcome (heap s) desc (number param) FAILURE (heap s) evs ->
    exists (r : status) (s' : state W) (evs' : list event),
      Some (FAILURE, Build_state m w' (trace s ++ evs)) = Some (r, s') /\
      trace s' = trace s ++ evs' /\
      gpio_get_outcome (heap s) desc (number param) r (heap s') evs').
  { intros w' m evs -> Hout. do 3 eexists.
    split; [reflexivity |]. split; [reflexivity | exact Hout]. }
  ask_env. cbn. branch; cbn.
  { heap_lookup. heap_lookup. rewrite <- !app_assoc.
    apply Hfail; [heap_eq p q desc | apply get_export_open; assumption]. }
  heap_lookup. rewrite c_str_fits, c_str_prefix.
  ask_env. cbn. branch; cbn.
  { ask_env. cbn. heap_lookup. heap_lookup. rewrite <- !app_assoc.
    apply Hfail; [heap_eq p q desc | eapply get_export_write; eassumption]. }
  ask_env. cbn. branch; cbn.
  { heap_lookup. heap_lookup. rewrite <- !app_assoc.
    apply Hfail; [heap_eq p q desc | eapply get_export_close; eassumption]. }
  heap_lookup. ask_env. cbn. heap_lookup. heap_lookup. branch; cbn.
  { heap_lookup. heap_lookup. rewrite <- !app_assoc.
    apply Hfail; [heap_eq p q desc | eapply get_direction_open; eassumption]. }
  heap_lookup. ask_env. cbn. heap_lookup. heap_lookup. branch; cbn.
  { heap_lookup. ask_env. cbn. heap_lookup. heap_lookup. rewrite <- !app_assoc.
    apply Hfail; [heap_eq p q desc | eapply get_value_open; eassumption]. }
  heap_lookup. rewrite Hdesc. cbn. rewrite <- !app_assoc.
  do 3 eexists. split; [reflexivity |]. split; [reflexivity |]. cbn.
  match goal with
  | |- gpio_get_outcome _ _ _ _ ?m _ =>
      replace m with
        (<[desc := Bptr p]>
           (<[q := Blinux_gpio_desc (Some fd0) (Some fd1)]>
              (<[p := Bgpio_desc (Some (number param)) (Some q)]> (heap s))))
        by heap_eq p q desc
  end.
  eapply get_published; eassumption.
Qed.

(** C1.  A run of [gpio_get] that returns SUCCESS has made exactly these
    calls, in this order: the two allocations and the stores of the link
    and the pin number; the opening of /sys/class/gpio/export write-only,
    the write to it of the decimal text of the pin number (for a
    non-negative number as many bytes as it has digits, all of them digits)
    and its closing; the opening of the direction file write-only and the
    store of that slot in the handle; the opening of the value file
    write-only and the store of that slot in the handle; and last the store
    of the handle through [desc]. *)
Theorem gpio_get_success_sequence (s : state W) (desc old : Z)
    (param : gpio_init_param) :
  heap s !! desc = Some (Bptr old) ->
  let N := number param in
  let digits := list_ascii_of_string (sprintf_d N) in
  exists (r : status) (s' : state W),
    run e (gpio_get desc param) s = Some (r, s') /\
    (r = SUCCESS ->
     exists p q fd wr c dfd vfd : Z,
       trace s' = trace s ++
         [EvMalloc K_gpio_desc p; EvMalloc K_linux_gpio_desc q;
          EvStore p Fextra q; EvStore p Fnumber N;
          EvOpen "/sys/class/gpio/export" O_WRONLY fd;
          EvWrite fd digits wr;
          EvClose fd c;
          EvOpen ("/sys/class/gpio/gpio" +:+ sprintf_d N +:+ "/direction")
            O_WRONLY dfd;
          EvStore q Fdirection_fd dfd;
          EvOpen ("/sys/class/gpio/gpio" +:+ sprintf_d N +:+ "/value")
            O_WRONLY vfd;
          EvStore q Fvalue_fd vfd;
          EvStore desc Fderef p] /\
       heap s' !! desc = Some (Bptr p) /\
       valid_handle (heap s') p N q dfd vfd /\
       0 <= fd /\ 0 <= wr /\ 0 <= c /\ 0 <= dfd /\ 0 <= vfd) /\
    (0 <= N ->
     atoi (sprintf_d N) 0 = N /\
     Forall (fun ch => is_digit ch = true) digits /\
     forall d : nat, has_digits N d -> length digits = d).
Proof.
  intros Hdesc N digits.
  destruct (gpio_get_run s desc old param Hdesc) as (r & s' & evs & Hrun & Htr & Hout).
  exists r, s'. split; [exact Hrun |]. split.
  - remember (heap s') as h' eqn:Hh'.
    destruct Hout; intros Hr; try discriminate Hr.
    assert (Hdp : desc <> p) by congruence.
    assert (Hdq : desc <> q) by congruence.
    exists p, q, fd, wr, c, dfd, vfd.
    split; [exact Htr |].
    split; [simplify_map_eq; done |].
    split; [split; simplify_map_eq; done |].
    repeat split; assumption.
  - intros HN. split; [apply sprintf_d_atoi; exact HN |].
    split; [apply sprintf_d_digits; exact HN |].
    intros d Hd. unfold digits. rewrite list_ascii_length.
    apply sprintf_d_length; assumption.
Qed.

(** C9.  [gpio_get_optional] runs [gpio_get] and returns SUCCESS whatever
    [gpio_get] returned; it ends in the state [gpio_get] ends in.  So the
    caller's handle variable holds a new handle when [gpio_get] succeeded
    and is as it was when [gpio_get] failed. *)
Theorem gpio_get_optional_always_ok (s : state W) (desc old : Z)
    (param : gpio_init_param) :
  heap s !! desc = Some (Bptr old) ->
  exists (r : status) (s' : state W),
    run e (gpio_get desc param) s = Some (r, s') /\
    run e (gpio_get_optional desc param) s = Some (SUCCESS, s') /\
    (r = SUCCESS ->
     exists p q dfd vfd : Z,
       p <> NULL /\ heap s !! p = None /\
       heap s' !! desc = Some (Bptr p) /\
       valid_handle (heap s') p (number param) q dfd vfd) /\
    (r = FAILURE -> heap s' !! desc = Some (Bptr old)).
Proof.
  intros Hdesc.
  destruct (gpio_get_run s desc old param Hdesc) as (r & s' & evs & Hrun & Htr & Hout).
  exists r, s'. split; [exact Hrun |]. split.
  { unfold gpio_get_optional. rewrite run_mbind, Hrun. reflexivity. }
  remember (heap s') as h' eqn:Hh'.
  destruct Hout; (split; intros Hr; try discriminate Hr); try exact Hdesc.
  assert (Hdp : desc <> p) by congruence.
  assert (Hdq : desc <> q) by congruence.
  exists p, q, dfd, vfd.
  repeat split; try assumption; simplify_map_eq; done.
Qed.

(** C8.  A run of [gpio_get] that returns FAILURE stopped at the first call
    that failed and freed what it had allocated: nothing when the first
    allocation failed, the descriptor when the second did, both structures
    when an export step or the opening of the direction file failed, and,
    when the opening of the value file failed, both structures after closing
    the direction slot.  The heap is then as it was before the call, and
    nothing was stored through [desc]. *)
Theorem gpio_get_failure_unwinds (s : state W) (desc old : Z)
    (param : gpio_init_param) :
  heap s !! desc = Some (Bptr old) ->
  let N := number param in
  let digits := list_ascii_of_string (sprintf_d N) in
  let pre := fun p q : Z =>
    [EvMalloc K_gpio_desc p; EvMalloc K_linux_gpio_desc q;
     EvStore p Fextra q; EvStore p Fnumber N] in
  let export := fun fd wr c : Z =>
    [EvOpen "/sys/class/gpio/export" O_WRONLY fd;
     EvWrite fd digits wr; EvClose fd c] in
  exists (r : status) (s' : state W) (evs : list event),
    run e (gpio_get desc param) s = Some (r, s') /\
    trace s' = trace s ++ evs /\
    (r = FAILURE ->
     heap s' = heap s /\
     heap s' !! desc = Some (Bptr old) /\
     (forall v : Z, ~ In (EvStore desc Fderef v) evs) /\
     (evs = [EvMalloc K_gpio_desc NULL] \/
      (exists p : Z,
         p <> NULL /\
         evs = [EvMalloc K_gpio_desc p; EvMalloc K_linux_gpio_desc NULL;
                EvFree p]) \/
      (exists p q fd : Z,
         p <> NULL /\ q <> NULL /\ fd < 0 /\
         evs = pre p q ++
               [EvOpen "/sys/class/gpio/export" O_WRONLY fd;
                EvPrintf (cant_open_device "gpio_get");
                EvFree q; EvFree p]) \/
      (exists p q fd wr c : Z,
         p <> NULL /\ q <> NULL /\ 0 <= fd /\ wr < 0 /\
         evs = pre p q ++
               [EvOpen "/sys/class/gpio/export" O_WRONLY fd;
                EvWrite fd digits wr;
                EvPrintf (cant_write "gpio_get");
                EvClose fd c;
                EvFree q; EvFree p]) \/
      (exists p q fd wr c : Z,
         p <> NULL /\ q <> NULL /\ 0 <= fd /\ 0 <= wr /\ c < 0 /\
         evs = pre p q ++ export fd wr c ++
               [EvPrintf (cant_close "gpio_get");
                EvFree q; EvFree p]) \/
      (exists p q fd wr c dfd : Z,
         p <> NULL /\ q <> NULL /\ 0 <= fd /\ 0 <= wr /\ 0 <= c /\ dfd < 0 /\
         evs = pre p q ++ export fd wr c ++
               [EvOpen (direction_path N) O_WRONLY dfd;
                EvStore q Fdirection_fd dfd;
                EvPrintf (cant_open "gpio_get" (direction_path N));
                EvFree q; EvFree p]) \/
      (exists p q fd wr c dfd vfd c' : Z,
         p <> NULL /\ q <> NULL /\
         0 <= fd /\ 0 <= wr /\ 0 <= c /\ 0 <= dfd /\ vfd < 0 /\
         evs = pre p q ++ export fd wr c ++
               [EvOpen (direction_path N) O_WRONLY dfd;
                EvStore q Fdirection_fd dfd;
                EvOpen (value_path N) O_WRONLY vfd;
                EvStore q Fvalue_fd vfd;
                EvPrintf (cant_open "gpio_get" (value_path N));
                EvClose dfd c';
                EvFree q; EvFree p]))).
Proof.
  intros Hdesc N digits pre export.
  destruct (gpio_get_run s desc old param Hdesc) as (r & s' & evs & Hrun & Htr & Hout).
  exists r, s', evs. split; [exact Hrun |]. split; [exact Htr |].
  intros Hr. remember (heap s') as h' eqn:Hh'.
  assert (Hnostore : forall (v : Z) (l : list event),
            Forall (fun ev => match ev with
                              | EvStore _ Fderef _ => False
                              | _ => True
                              end) l ->
            ~ In (EvStore desc Fderef v) l).
  { intros v l Hall Hin. rewrite Forall_forall in Hall.
    apply list_elem_of_In in Hin. apply (Hall _ Hin). }
  destruct Hout; try discriminate Hr;
    (split; [reflexivity |]); (split; [exact Hdesc |]);
    (split; [intros v; apply Hnostore; repeat constructor |]).
  - left. reflexivity.
  - right; left. exists p. split; [assumption | reflexivity].
  - do 2 right; left. exists p, q, fd. repeat split; assumption.
  - do 3 right; left. exists p, q, fd, wr, c. repeat split; assumption.
  - do 4 right; left. exists p, q, fd, wr, c. repeat split; assumption.
  - do 5 right; left. exists p, q, fd, wr, c, dfd. repeat split; assumption.
  - do 6 right. exists p, q, fd, wr, c, dfd, vfd, c'. repeat split; assumption.
Qed.

(** The first call of [gpio_get_value] on a valid handle is a read of one
    byte from the slot stored as [value_fd]. *)
Lemma gpio_get_value_first_call (s : state W)
    (desc n ext dfd vfd value old : Z) :
  valid_handle (heap s) desc n ext dfd vfd ->
  heap s !! value = Some (Bu8 old) ->
  exists (r : status) (s' : state W) (ret : Z) (got : list ascii)
         (rest : list event),
    run e (gpio_get_value desc value) s = Some (r, s') /\
    trace s' = trace s ++ EvRead vfd 1 ret got :: rest.
Proof.
  intros [Hd He] Hv. unfold gpio_get_value.
  cbn. rewrite Hd. cbn. ask_env. cbn. rewrite He. cbn.
  ask_env. destruct r as [bytes |]; cbn.
  - match goal with
    | |- context [Z.of_nat ?k <? 0] =>
        replace (Z.of_nat k <? 0) with false by (symmetry; apply Z.ltb_ge; lia)
    end.
    cbn.
    match goal with
    | |- context [decide (?x = ?y)] => destruct (decide (x = y))
    end; cbn; rewrite Hv; cbn; rewrite <- ?app_assoc;
      do 5 eexists; split; reflexivity.
  - rewrite <- ?app_assoc. do 5 eexists; split; reflexivity.
Qed.

(** C3.  In a run of [gpio_get] that succeeds every file is opened
    write-only, the value file among them, and the slot that opening
    returned is the one stored in the handle as [value_fd]; the read that
    [gpio_get_value] then makes on the handle is a read of one byte from
    that very slot. *)
Theorem gpio_get_value_reads_write_only_slot (s : state W)
    (desc old value v0 : Z) (param : gpio_init_param) :
  heap s !! desc = Some (Bptr old) ->
  heap s !! value = Some (Bu8 v0) ->
  let N := number param in
  exists (r : status) (s1 : state W),
    run e (gpio_get desc param) s = Some (r, s1) /\
    (r = SUCCESS ->
     exists (handle q dfd vfd : Z) (evs : list event),
       trace s1 = trace s ++ evs /\
       In (EvOpen ("/sys/class/gpio/gpio" +:+ sprintf_d N +:+ "/value")
             O_WRONLY vfd) evs /\
       (forall (path : string) (fl : oflag) (fd : Z),
          In (EvOpen path fl fd) evs -> fl = O_WRONLY) /\
       In (EvStore q Fvalue_fd vfd) evs /\
       heap s1 !! desc = Some (Bptr handle) /\
       valid_handle (heap s1) handle N q dfd vfd /\
       exists (r2 : status) (s2 : state W) (ret : Z) (got : list ascii)
              (rest : list event),
         run e (gpio_get_value handle value) s1 = Some (r2, s2) /\
         trace s2 = trace s1 ++ EvRead vfd 1 ret got :: rest).
Proof.
  intros Hdesc Hvalue N.
  destruct (gpio_get_run s desc old param Hdesc) as (r & s1 & evs & Hrun & Htr & Hout).
  exists r, s1. split; [exact Hrun |].
  remember (heap s1) as h1 eqn:Hh1.
  destruct Hout; intros Hr; try discriminate Hr.
  assert (Hdp : desc <> p) by congruence.
  assert (Hdq : desc <> q) by congruence.
  assert (Hvd : value <> desc) by congruence.
  assert (Hvp : value <> p) by congruence.
  assert (Hvq : value <> q) by congruence.
  assert (Hh : valid_handle (heap s1) p N q dfd vfd).
  { rewrite <- Hh1. split; simplify_map_eq; done. }
  assert (Hv1 : heap s1 !! value = Some (Bu8 v0)).
  { rewrite <- Hh1. simplify_map_eq. done. }
  exists p, q, dfd, vfd. eexists.
  split; [exact Htr |].
  split; [cbn; auto 20 |].
  split.
  { intros path fl fd0 Hin. cbn in Hin.
    repeat (destruct Hin as [Hin | Hin]; [congruence |]). contradiction. }
  split; [cbn; auto 20 |].
  split; [simplify_map_eq; done |].
  split; [rewrite Hh1; exact Hh |].
  exact (gpio_get_value_first_call s1 p N q dfd vfd value v0 Hh Hv1).
Qed.

End driver.

(** * The theorems at work

    Each theorem is applied to the handle of pin 17 in [demo_heap] and an
    environment in which every call succeeds. *)

Example sprintf_d_samples :
  sprintf_d 0 = "0" /\ sprintf_d 7 = "7" /\ sprintf_d 17 = "17" /\
  sprintf_d 100 = "100" /\ sprintf_d 2147483647 = "2147483647" /\
  sprintf_d (-8) = "-8".
Proof. vm_compute. repeat split. Qed.

Example scenario_S1_lifecycle :
  option_map (fun x => (x.1, trace x.2))
    (run (scripted 100 "X" []) (acquire_release 30 {| number := 17 |})
       (init_state demo_heap)) =
  Some (SUCCESS,
        [EvMalloc K_gpio_desc 31; EvMalloc K_linux_gpio_desc 32;
         EvStore 31 Fextra 32; EvStore 31 Fnumber 17;
         EvOpen "/sys/class/gpio/export" O_WRONLY 5;
         EvWrite 5 ["1"; "7"]%char 2; EvClose 5 0;
         EvOpen "/sys/class/gpio/gpio17/direction" O_WRONLY 8;
         EvStore 32 Fdirection_fd 8;
         EvOpen "/sys/class/gpio/gpio17/value" O_WRONLY 9;
         EvStore 32 Fvalue_fd 9; EvStore 30 Fderef 31;
         EvClose 8 0; EvClose 9 0;
         EvOpen "/sys/class/gpio/unexport" O_WRONLY 12;
         EvWrite 12 ["1"; "7"]%char 2; EvClose 12 0;
         EvFree 32; EvFree 31]).
Proof. vm_compute. reflexivity. Qed.

Example acquire_value_open_fails :
  option_map (fun x => (x.1, trace x.2, heap x.2))
    (run (scripted 6 "X" []) (gpio_get 30 {| number := 17 |})
       (init_state demo_heap)) =
  Some (FAILURE,
        [EvMalloc K_gpio_desc 31; EvMalloc K_linux_gpio_desc 32;
         EvStore 31 Fextra 32; EvStore 31 Fnumber 17;
         EvOpen "/sys/class/gpio/export" O_WRONLY 5;
         EvWrite 5 ["1"; "7"]%char 2; EvClose 5 0;
         EvOpen "/sys/class/gpio/gpio17/direction" O_WRONLY 8;
         EvStore 32 Fdirection_fd 8;
         EvOpen "/sys/class/gpio/gpio17/value" O_WRONLY (-1);
         EvStore 32 Fvalue_fd (-1);
         EvPrintf (cant_open "gpio_get" "/sys/class/gpio/gpio17/value");
         EvClose 8 0; EvFree 32; EvFree 31],
        demo_heap).
Proof. vm_compute. reflexivity. Qed.

Example get_value_after_end_of_file :
  option_map (fun x => (x.1, trace x.2))
    (run (scripted 100 "0" []) (gpio_get_value 10 20) (init_state demo_heap)) =
  Some (SUCCESS, [EvRead 5 1 0 []; EvStore 20 Fderef GPIO_LOW]) /\
  option_map (fun x => (x.1, trace x.2))
    (run (scripted 100 "q" []) (gpio_get_value 10 20) (init_state demo_heap)) =
  Some (SUCCESS, [EvRead 5 1 0 []; EvStore 20 Fderef GPIO_HIGH]).
Proof. split; vm_compute; reflexivity. Qed.

Lemma demo_handle : valid_handle (heap (init_state demo_heap)) 10 17 11 4 5.
Proof. split; vm_compute; reflexivity. Defined.

Lemma demo_value : heap (init_state demo_heap) !! 20 = Some (Bu8 7).
Proof. vm_compute; reflexivity. Defined.

Lemma demo_desc : heap (init_state demo_heap) !! 30 = Some (Bptr NULL).
Proof. vm_compute; reflexivity. Defined.

Lemma gpio_direction_input_writes_in_witness :
  valid_handle (heap (init_state demo_heap)) 10 17 11 4 5 /\
  exists s' : state nat,
    run (scripted 100 "X" []) (gpio_direction_input 10) (init_state demo_heap)
      = Some (SUCCESS, s') /\
    trace s' = [EvWrite 4 ["i"; "n"; NUL]%char 3].
Proof.
  split; [exact demo_handle |].
  destruct (gpio_direction_input_writes_in (scripted 100 "X" [])
              (init_state demo_heap) 10 17 11 4 5 demo_handle)
    as (r & s' & ret & Hrun & Hret & _ & Hok & _).
  vm_compute in Hret. subst ret.
  destruct (Hok ltac:(lia)) as [-> Htr].
  exists s'. split; [exact Hrun | exact Htr].
Defined.

Lemma gpio_set_value_writes_level_witness :
  valid_handle (heap (init_state demo_heap)) 10 17 11 4 5 /\
  exists s' : state nat,
    run (scripted 100 "X" []) (gpio_set_value 10 1) (init_state demo_heap)
      = Some (SUCCESS, s') /\
    trace s' = [EvWrite 5 ["1"; NUL]%char 2].
Proof.
  split; [exact demo_handle |].
  destruct (gpio_set_value_writes_level (scripted 100 "X" [])
              (init_state demo_heap) 10 17 11 4 5 1 demo_handle)
    as (r & s' & bytes & ret & Hrun & Hnz & _ & Hret & _ & Hok & _).
  rewrite (Hnz ltac:(lia)) in *. vm_compute in Hret. subst ret.
  destruct (Hok ltac:(lia)) as [-> Htr].
  exists s'. split; [exact Hrun | exact Htr].
Defined.

Lemma gpio_direction_output_writes_out_then_sets_witness :
  valid_handle (heap (init_state demo_heap)) 10 17 11 4 5 /\
  exists s' : state nat,
    run (scripted 100 "X" []) (gpio_direction_output 10 0) (init_state demo_heap)
      = Some (SUCCESS, s').
Proof.
  split; [exact demo_handle |].
  destruct (gpio_direction_output_writes_out_then_sets (scripted 100 "X" [])
              (init_state demo_heap) 10 17 11 4 5 0 demo_handle)
    as (r & s' & Hrun & _ & _ & _ & Hiff).
  assert (Hr : r = SUCCESS) by (apply Hiff; split; vm_compute; discriminate).
  subst r. exists s'. exact Hrun.
Defined.

Lemma gpio_get_value_reads_one_byte_witness :
  valid_handle (heap (init_state demo_heap)) 10 17 11 4 5 /\
  heap (init_state demo_heap) !! 20 = Some (Bu8 7) /\
  exists s' : state nat,
    run (scripted 100 "X" ["0"]%char) (gpio_get_value 10 20) (init_state demo_heap)
      = Some (SUCCESS, s') /\
    heap s' !! 20 = Some (Bu8 GPIO_LOW).
Proof.
  split; [exact demo_handle |]. split; [exact demo_value |].
  destruct (gpio_get_value_reads_one_byte (scripted 100 "X" ["0"]%char)
              (init_state demo_heap) 10 17 11 4 5 20 7 demo_handle demo_value)
    as (r & s' & ret & got & Hrun & _ & Hneg & _ & Hok & _ & _).
  assert (Hret : 0 <= ret).
  { destruct (Z_lt_le_dec ret 0) as [Hlt | Hge]; [| exact Hge].
    apply Hneg in Hlt. vm_compute in Hlt. discriminate Hlt. }
  destruct (Hok Hret) as (-> & _ & Hheap & _).
  exists s'. split; [exact Hrun |].
  vm_compute in Hrun. injection Hrun as <-. vm_compute. reflexivity.
Defined.

Lemma gpio_get_value_zero_count_witness :
  valid_handle (heap (init_state demo_heap)) 10 17 11 4 5 /\
  heap (init_state demo_heap) !! 20 = Some (Bu8 7) /\
  (env_read (scripted 100 "0" []) 5 1 O).1 = Some [] /\
  exists s' : state nat,
    run (scripted 100 "0" []) (gpio_get_value 10 20) (init_state demo_heap)
      = Some (SUCCESS, s') /\
    trace s' = [EvRead 5 1 0 []; EvStore 20 Fderef GPIO_LOW].
Proof.
  split; [exact demo_handle |]. split; [exact demo_value |].
  split; [reflexivity |].
  destruct (gpio_get_value_zero_count (scripted 100 "0" [])
              (init_state demo_heap) 10 17 11 4 5 20 7 demo_handle demo_value)
    as [Hzero _].
  destruct (Hzero eq_refl) as (s' & Hrun & _ & Htr).
  exists s'. split; [exact Hrun | exact Htr].
Defined.

Lemma gpio_remove_steps_witness :
  valid_handle (heap (init_state demo_heap)) 10 17 11 4 5 /\
  atoi (sprintf_d 17) 0 = 17 /\
  exists (r : status) (s' : state nat),
    run (scripted 100 "X" []) (gpio_remove 10) (init_state demo_heap)
      = Some (r, s') /\
    (r = SUCCESS -> heap s' = delete 10 (delete 11 demo_heap)).
Proof.
  split; [exact demo_handle |].
  destruct (gpio_remove_steps (scripted 100 "X" [])
              (init_state demo_heap) 10 17 11 4 5 demo_handle)
    as (r & s' & c1 & c2 & fd & wr & c3 & Hrun & _ & _ & _ & _ & _ & Hok & Hiff
        & Htext).
  split; [exact (proj1 (Htext ltac:(lia))) |].
  exists r, s'. split; [exact Hrun |].
  intros Hr. apply Hiff in Hr as (H1 & H2 & H3 & H4 & H5).
  destruct (Hok H1 H2 H3 H4 H5) as (_ & Hheap & _). exact Hheap.
Defined.

Lemma gpio_get_success_sequence_witness :
  heap (init_state demo_heap) !! 30 = Some (Bptr NULL) /\
  has_digits 17 2 /\
  length (list_ascii_of_string (sprintf_d 17)) = 2%nat /\
  exists (s' : state nat) (p q dfd vfd : Z),
    run (scripted 100 "X" []) (gpio_get 30 {| number := 17 |})
      (init_state demo_heap) = Some (SUCCESS, s') /\
    heap s' !! 30 = Some (Bptr p) /\
    valid_handle (heap s') p 17 q dfd vfd.
Proof.
  split; [exact demo_desc |].
  assert (Hd : has_digits 17 2) by (unfold has_digits; cbn; lia).
  split; [exact Hd |].
  destruct (gpio_get_success_sequence (scripted 100 "X" [])
              (init_state demo_heap) 30 NULL {| number := 17 |} demo_desc)
    as (r & s' & Hrun & Hok & Hdigits).
  destruct (Hdigits ltac:(cbn; lia)) as (_ & _ & Hlen).
  split; [exact (Hlen 2%nat Hd) |].
  assert (Hr : r = SUCCESS).
  { pose proof Hrun as Hc. vm_compute in Hc. congruence. }
  subst r.
  destruct (Hok eq_refl) as (p & q & fd & wr & c & dfd & vfd & _ & Hp & Hh & _).
  exists s', p, q, dfd, vfd. split; [exact Hrun |]. split; [exact Hp | exact Hh].
Defined.

Lemma gpio_get_failure_unwinds_witness :
  heap (init_state demo_heap) !! 30 = Some (Bptr NULL) /\
  exists s' : state nat,
    run (scripted 6 "X" []) (gpio_get 30 {| number := 17 |})
      (init_state demo_heap) = Some (FAILURE, s') /\
    heap s' = demo_heap.
Proof.
  split; [exact demo_desc |].
  destruct (gpio_get_failure_unwinds (scripted 6 "X" [])
              (init_state demo_heap) 30 NULL {| number := 17 |} demo_desc)
    as (r & s' & evs & Hrun & _ & Hfail).
  assert (Hr : r = FAILURE).
  { pose proof Hrun as Hc. vm_compute in Hc. congruence. }
  subst r. exists s'. split; [exact Hrun |].
  destruct (Hfail eq_refl) as (Hheap & _). exact Hheap.
Defined.

Lemma gpio_get_optional_always_ok_witness :
  heap (init_state demo_heap) !! 30 = Some (Bptr NULL) /\
  exists s' : state nat,
    run (scripted 2 "X" []) (gpio_get 30 {| number := 17 |})
      (init_state demo_heap) = Some (FAILURE, s') /\
    run (scripted 2 "X" []) (gpio_get_optional 30 {| number := 17 |})
      (init_state demo_heap) = Some (SUCCESS, s') /\
    heap s' !! 30 = Some (Bptr NULL).
Proof.
  split; [exact demo_desc |].
  destruct (gpio_get_optional_always_ok (scripted 2 "X" [])
              (init_state demo_heap) 30 NULL {| number := 17 |} demo_desc)
    as (r & s' & Hget & Hrun & _ & Hfail).
  assert (Hr : r = FAILURE).
  { pose proof Hget as Hc. vm_compute in Hc. congruence. }
  subst r. exists s'. split; [exact Hget |]. split; [exact Hrun |].
  exact (Hfail eq_refl).
Defined.

Lemma gpio_get_value_reads_write_only_slot_witness :
  heap (init_state demo_heap) !! 30 = Some (Bptr NULL) /\
  heap (init_state demo_heap) !! 20 = Some (Bu8 7) /\
  exists (s1 s2 : state nat) (handle vfd : Z) (r2 : status),
    run (scripted 100 "X" []) (gpio_get 30 {| number := 17 |})
      (init_state demo_heap) = Some (SUCCESS, s1) /\
    In (EvOpen "/sys/class/gpio/gpio17/value" O_WRONLY vfd) (trace s1) /\
    run (scripted 100 "X" []) (gpio_get_value handle 20) s1 = Some (r2, s2).
Proof.
  split; [exact demo_desc |]. split; [exact demo_value |].
  destruct (gpio_get_value_reads_write_only_slot (scripted 100 "X" [])
              (init_state demo_heap) 30 NULL 20 7 {| number := 17 |}
              demo_desc demo_value)
    as (r & s1 & Hrun & Hok).
  assert (Hr : r = SUCCESS).
  { pose proof Hrun as Hc. vm_compute in Hc. congruence. }
  subst r.
  destruct (Hok eq_refl)
    as (handle & q & dfd & vfd & evs & Htr & Hin & _ & _ & _ & _ &
        r2 & s2 & ret & got & rest & Hrun2 & _).
  exists s1, s2, handle, vfd, r2.
  split; [exact Hrun |]. split; [| exact Hrun2].
  rewrite Htr. exact Hin.
Defined.

(** * Further properties of the driver *)

(** ** Texts and paths *)

Lemma append_length (a b : string) :
  String.length (a +:+ b) = (String.length a + String.length b)%nat.
Proof. induction a as [| c a IH]; simpl; [reflexivity | f_equal; exact IH]. Qed.

Lemma list_ascii_append (a b : string) :
  list_ascii_of_string (a +:+ b) = list_ascii_of_string a ++ list_ascii_of_string b.
Proof. induction a as [| c a IH]; simpl; [reflexivity | f_equal; exact IH]. Qed.

Lemma list_ascii_inj (a b : string) :
  list_ascii_of_string a = list_ascii_of_string b -> a = b.
Proof.
  intros E. rewrite <- (string_of_list_ascii_of_string a),
    <- (string_of_list_ascii_of_string b), E. reflexivity.
Qed.

Lemma append_inv_head (p a b : string) : p +:+ a = p +:+ b -> a = b.
Proof.
  induction p as [| c p IH]; simpl; intros E; [exact E |].
  injection E as E. exact (IH E).
Qed.

Lemma append_inv_tail (a b t : string) : a +:+ t = b +:+ t -> a = b.
Proof.
  intros E. apply list_ascii_inj.
  apply (f_equal list_ascii_of_string) in E.
  rewrite !list_ascii_append in E. exact (app_inv_tail _ _ _ E).
Qed.

Lemma sprintf_d_negative (n : Z) :
  n < 0 -> sprintf_d n = String "-" (sprintf_d (- n)).
Proof.
  intros Hn. unfold sprintf_d.
  destruct (Z.ltb_spec n 0); [| lia].
  destruct (Z.ltb_spec (- n) 0); [lia | reflexivity].
Qed.

Lemma sprintf_d_first_digit (n : Z) :
  0 <= n ->
  exists (c : ascii) (s : string), sprintf_d n = String c s /\ is_digit c = true.
Proof.
  intros Hn. pose proof (sprintf_d_digits n Hn) as Hall.
  destruct (sprintf_d n) as [| c s] eqn:E.
  - exfalso. unfold sprintf_d in E. destruct (Z.ltb_spec n 0); [lia |].
    destruct (Z.to_nat (Z.log2 n)); simpl in E;
      [discriminate E | destruct (n <? 10); [discriminate E |]].
    assert (Hlen : forall f m acc, utoa f m acc <> EmptyString).
    { clear. induction f as [| f IH]; intros m acc; simpl;
        [discriminate | destruct (m <? 10); [discriminate | apply IH]]. }
    exact (Hlen _ _ _ E).
  - exists c, s. split; [reflexivity |].
    simpl in Hall. inversion Hall; assumption.
Qed.

Lemma sprintf_d_length_le (n : Z) :
  0 <= n < 10 ^ 10 -> (String.length (sprintf_d n) <= 10)%nat.
Proof.
  intros [Hn Hlt].
  destruct (Z.eq_dec n 0) as [-> | Hnz]; [vm_compute; lia |].
  destruct (decimal_bracket n ltac:(lia)) as [d Hd].
  assert (Hd10 : (d < 10)%nat).
  { assert (H : 10 ^ Z.of_nat d < 10 ^ 10) by lia.
    apply Z.pow_lt_mono_r_iff in H; lia. }
  rewrite (sprintf_d_length n (S d)); [lia | lia |].
  split; [lia |]. split.
  - replace (Z.of_nat (S d)) with (Z.of_nat d + 1) by lia. lia.
  - left. replace (Z.of_nat (S d) - 1) with (Z.of_nat d) by lia. lia.
Qed.

(** X9.  For every 32-bit pin number the three texts [gpio_get] and
    [gpio_remove] format into their 64-byte [path] buffer fit in it with
    their terminating NUL: the number itself takes at most 11 characters
    and the two attribute paths at most 41. *)
Theorem path_buffer_suffices (n : Z) :
  int32 n ->
  (String.length (sprintf_d n) <= 11)%nat /\
  (String.length (direction_path n) <= 41)%nat /\
  (String.length (value_path n) <= 41)%nat /\
  (String.length (sprintf_d n) + 1 <= PATH_SIZE)%nat /\
  (String.length (direction_path n) + 1 <= PATH_SIZE)%nat /\
  (String.length (value_path n) + 1 <= PATH_SIZE)%nat.
Proof.
  unfold int32, PATH_SIZE. intros Hn.
  assert (H31 : 2 ^ 31 < 10 ^ 10) by (vm_compute; reflexivity).
  assert (Hlen : (String.length (sprintf_d n) <= 11)%nat).
  { destruct (Z_lt_le_dec n 0) as [Hneg | Hpos].
    - rewrite sprintf_d_negative by exact Hneg. simpl.
      pose proof (sprintf_d_length_le (- n) ltac:(lia)). lia.
    - pose proof (sprintf_d_length_le n ltac:(lia)). lia. }
  unfold direction_path, value_path. rewrite !append_length. simpl. lia.
Qed.

Lemma atoi_signed_sprintf_d (n : Z) : atoi_signed (sprintf_d n) = n.
Proof.
  destruct (Z_lt_le_dec n 0) as [Hneg | Hpos].
  - rewrite sprintf_d_negative by exact Hneg. simpl.
    rewrite sprintf_d_atoi by lia. lia.
  - destruct (sprintf_d_first_digit n Hpos) as (c & s & E & Hc).
    assert (Hplain : atoi_signed (sprintf_d n) = atoi (sprintf_d n) 0).
    { rewrite E. unfold atoi_signed.
      destruct c as [[] [] [] [] [] [] [] []]; try reflexivity.
      vm_compute in Hc. discriminate Hc. }
    rewrite Hplain. apply sprintf_d_atoi. exact Hpos.
Qed.

Lemma sprintf_d_inj (a b : Z) : sprintf_d a = sprintf_d b -> a = b.
Proof.
  intros E. rewrite <- (atoi_signed_sprintf_d a), <- (atoi_signed_sprintf_d b), E.
  reflexivity.
Qed.

(** X10.  The text the driver writes to export and unexport denotes the
    pin number, sign included, for every integer: reading it back gives
    the number, so different numbers give different texts. *)
Theorem sprintf_d_round_trip (n : Z) :
  atoi_signed (sprintf_d n) = n /\
  forall m : Z, sprintf_d m = sprintf_d n -> m = n.
Proof.
  split; [apply atoi_signed_sprintf_d |].
  intros m E. exact (sprintf_d_inj m n E).
Qed.

(** X11.  Different pins never share an attribute file, and the direction
    file of one pin is never the value file of another or the same pin:
    the two path formats are injective in the pin number and have disjoint
    images. *)
Theorem attribute_paths_distinct (a b : Z) :
  (direction_path a = direction_path b -> a = b) /\
  (value_path a = value_path b -> a = b) /\
  direction_path a <> value_path b.
Proof.
  unfold direction_path, value_path. repeat split.
  - intros E. apply append_inv_head, append_inv_tail in E.
    exact (sprintf_d_inj a b E).
  - intros E. apply append_inv_head, append_inv_tail in E.
    exact (sprintf_d_inj a b E).
  - intros E. apply append_inv_head in E.
    apply (f_equal list_ascii_of_string) in E.
    rewrite !list_ascii_append in E.
    apply (f_equal (@rev ascii)) in E. rewrite !rev_app_distr in E.
    simpl in E. discriminate E.
Qed.

(** ** Descriptors, memory and the life of a handle *)

Section lifecycle.
Context {W : Type} (e : env W).

(** Every run of [gpio_remove] on a valid handle ends, in one of the six
    ways. *)
Lemma gpio_remove_run (s : state W) (desc n ext dfd vfd : Z) :
  valid_handle (heap s) desc n ext dfd vfd ->
  exists (r : status) (s' : state W) (evs : list event),
    run e (gpio_remove desc) s = Some (r, s') /\
    trace s' = trace s ++ evs /\
    gpio_remove_outcome (heap s) desc n ext dfd vfd r (heap s') evs.
Proof.
  intros [Hd He].
  assert (Hne : desc <> ext) by (intros ->; rewrite Hd in He; discriminate).
  unfold gpio_remove.
  cbn. rewrite Hd. cbn. rewrite He. cbn.
  ask_env. cbn. branch; cbn.
  { rewrite <- !app_assoc. do 3 eexists.
    split; [reflexivity |]. split; [reflexivity |]. constructor; assumption. }
  rewrite He. cbn. ask_env. cbn. branch; cbn.
  { rewrite <- !app_assoc. do 3 eexists.
    split; [reflexivity |]. split; [reflexivity |]. constructor; assumption. }
  ask_env. cbn. branch; cbn.
  { rewrite <- !app_assoc. do 3 eexists.
    split; [reflexivity |]. split; [reflexivity |]. constructor; assumption. }
  rewrite Hd. cbn. rewrite c_str_fits, c_str_prefix.
  ask_env. cbn. branch; cbn.
  { rewrite <- !app_assoc. do 3 eexists.
    split; [reflexivity |]. split; [reflexivity |].
    eapply remove_unexport_write; eassumption. }
  ask_env. cbn. branch; cbn.
  { rewrite <- !app_assoc. do 3 eexists.
    split; [reflexivity |]. split; [reflexivity |].
    eapply remove_unexport_close; eassumption. }
  rewrite Hd. cbn. rewrite He. cbn.
  rewrite lookup_delete_ne, Hd by congruence. cbn.
  rewrite <- !app_assoc. do 3 eexists.
  split; [reflexivity |]. split; [reflexivity |].
  eapply remove_done; eassumption.
Qed.

(** X1.  [gpio_get] accounts for every descriptor it obtains.  A run that
    fails has passed each descriptor it opened to [close] before returning:
    it holds no descriptor more than before.  A run that succeeds has
    closed the export file and holds exactly two more, the direction and
    value slots stored in the handle. *)
Theorem gpio_get_descriptors (s : state W) (desc old : Z)
    (param : gpio_init_param) (held : list Z) :
  heap s !! desc = Some (Bptr old) ->
  exists (r : status) (s' : state W) (evs : list event),
    run e (gpio_get desc param) s = Some (r, s') /\
    trace s' = trace s ++ evs /\
    (r = FAILURE -> unclosed evs held = held) /\
    (r = SUCCESS ->
     exists p q dfd vfd : Z,
       heap s' !! desc = Some (Bptr p) /\
       valid_handle (heap s') p (number param) q dfd vfd /\
       unclosed evs held = vfd :: dfd :: held).
Proof.
  intros Hdesc.
  destruct (gpio_get_run e s desc old param Hdesc) as (r & s' & evs & Hrun & Htr & Hout).
  exists r, s', evs. split; [exact Hrun |]. split; [exact Htr |].
  remember (heap s') as h' eqn:Hh'.
  destruct Hout; (split; intros Hr; try discriminate Hr); try (held_fds; reflexivity).
  assert (Hdp : desc <> p) by congruence.
  assert (Hdq : desc <> q) by congruence.
  exists p, q, dfd, vfd.
  split; [simplify_map_eq; done |].
  split; [split; simplify_map_eq; done |].
  held_fds. reflexivity.
Qed.

(** X2.  A [gpio_remove] that succeeds has passed both slots of the handle
    and the unexport descriptor to [close]: of the two slots held before,
    none is left, and both structures of the handle are gone from the
    heap. *)
Theorem gpio_remove_closes_slots (s : state W) (desc n ext dfd vfd : Z)
    (held : list Z) :
  valid_handle (heap s) desc n ext dfd vfd ->
  exists (r : status) (s' : state W) (evs : list event),
    run e (gpio_remove desc) s = Some (r, s') /\
    trace s' = trace s ++ evs /\
    (r = SUCCESS ->
     unclosed evs (vfd :: dfd :: held) = held /\
     heap s' !! desc = None /\ heap s' !! ext = None /\
     forall a : Z, a <> desc -> a <> ext -> heap s' !! a = heap s !! a).
Proof.
  intros Hh.
  destruct (gpio_remove_run s desc n ext dfd vfd Hh) as (r & s' & evs & Hrun & Htr & Hout).
  exists r, s', evs. split; [exact Hrun |]. split; [exact Htr |].
  remember (heap s') as h' eqn:Hh'.
  destruct Hout; intros Hr; try discriminate Hr.
  split.
  - unfold unclosed. cbn [fold_left fd_event remove_one].
    destruct (decide (vfd = dfd)) as [-> | Hne];
      cbn [fold_left fd_event remove_one]; held_fds; reflexivity.
  - split; [simplify_map_eq; done |].
    split; [destruct (decide (desc = ext)); simplify_map_eq; done |].
    intros a Ha1 Ha2. simplify_map_eq. done.
Qed.

(** X3.  A [gpio_remove] whose write to the unexport file fails returns
    FAILURE without closing that file: the descriptor it opened is still
    held afterwards, while the two slots are closed and the handle is still
    allocated with its stale slots.  ([gpio_get] closes the export file on
    the same failure.) *)
Theorem gpio_remove_write_failure_keeps_descriptor (s : state W)
    (desc n ext dfd vfd : Z) (held : list Z) :
  valid_handle (heap s) desc n ext dfd vfd ->
  exists (r : status) (s' : state W) (evs : list event),
    run e (gpio_remove desc) s = Some (r, s') /\
    trace s' = trace s ++ evs /\
    forall (fd wr : Z) (bytes : list ascii),
      In (EvWrite fd bytes wr) evs -> wr < 0 ->
      r = FAILURE /\
      unclosed evs (vfd :: dfd :: held) = fd :: held /\
      (forall c : Z, ~ In (EvClose fd c) (skipn 2 evs)) /\
      valid_handle (heap s') desc n ext dfd vfd.
Proof.
  intros Hh.
  destruct (gpio_remove_run s desc n ext dfd vfd Hh) as (r & s' & evs & Hrun & Htr & Hout).
  exists r, s', evs. split; [exact Hrun |]. split; [exact Htr |].
  remember (heap s') as h' eqn:Hh'.
  intros fd0 wr0 bytes Hin Hwr.
  destruct Hout; cbn in Hin;
    repeat (destruct Hin as [Hin | Hin]; [try discriminate Hin |]);
    try contradiction;
    try (injection Hin as -> -> ->; lia).
  injection Hin as -> -> ->.
  split; [reflexivity |]. split.
  - unfold unclosed. cbn [fold_left fd_event remove_one].
    destruct (decide (vfd = dfd)) as [-> | Hne];
      cbn [fold_left fd_event remove_one]; held_fds; reflexivity.
  - split; [| exact Hh].
    intros c Hc. cbn in Hc.
    repeat (destruct Hc as [Hc | Hc]; [discriminate Hc |]). contradiction.
Qed.

(** X4.  Acquire and release compose: when [gpio_get] succeeds and
    [gpio_remove] on the handle it published succeeds too, all memory is
    given back (the heap is the one before the acquire, but for the handle
    variable, which still holds the address of the freed handle), every
    descriptor opened by either has been closed, and the text written to
    unexport is the text that was written to export. *)
Theorem acquire_release_restores (s : state W) (desc old : Z)
    (param : gpio_init_param) (held : list Z) :
  heap s !! desc = Some (Bptr old) ->
  exists (r1 : status) (s1 : state W) (evs1 : list event),
    run e (gpio_get desc param) s = Some (r1, s1) /\
    trace s1 = trace s ++ evs1 /\
    (r1 = SUCCESS ->
     exists (h : Z) (r2 : status) (s2 : state W) (evs2 : list event),
       heap s1 !! desc = Some (Bptr h) /\
       run e (gpio_remove h) s1 = Some (r2, s2) /\
       trace s2 = trace s1 ++ evs2 /\
       (r2 = SUCCESS ->
        heap s2 = <[desc := Bptr h]> (heap s) /\
        unclosed (evs1 ++ evs2) held = held /\
        forall (fd wr : Z) (bytes : list ascii),
          In (EvWrite fd bytes wr) (evs1 ++ evs2) ->
          bytes = list_ascii_of_string (sprintf_d (number param)))).
Proof.
  intros Hdesc.
  destruct (gpio_get_run e s desc old param Hdesc)
    as (r1 & s1 & evs1 & Hrun1 & Htr1 & Hout1).
  exists r1, s1, evs1. split; [exact Hrun1 |]. split; [exact Htr1 |].
  remember (heap s1) as h1 eqn:Hh1.
  destruct Hout1; intros Hr1; try discriminate Hr1.
  assert (Hdp : desc <> p) by congruence.
  assert (Hdq : desc <> q) by congruence.
  assert (Hh : valid_handle (heap s1) p (number param) q dfd vfd).
  { rewrite <- Hh1. split; simplify_map_eq; done. }
  destruct (gpio_remove_run s1 p (number param) q dfd vfd Hh)
    as (r2 & s2 & evs2 & Hrun2 & Htr2 & Hout2).
  exists p, r2, s2, evs2.
  split; [simplify_map_eq; done |].
  split; [exact Hrun2 |]. split; [exact Htr2 |].
  remember (heap s2) as h2 eqn:Hh2.
  destruct Hout2; intros Hr2; try discriminate Hr2.
  split; [| split].
  - rewrite <- Hh1. heap_eq p q desc.
  - unfold unclosed. rewrite fold_left_app.
    change (fold_left fd_event ?l ?a) with (unclosed l a).
    replace (unclosed _ held) with (vfd :: dfd :: held) by (held_fds; reflexivity).
    unfold unclosed. cbn [fold_left fd_event remove_one].
    destruct (decide (vfd = dfd)) as [-> | Hne];
      cbn [fold_left fd_event remove_one]; held_fds; reflexivity.
  - intros fd1 wr1 bytes Hin. unfold acquire_prefix in Hin. cbn in Hin.
    repeat (destruct Hin as [Hin | Hin]; [try discriminate Hin |]);
      try contradiction; injection Hin as _ <- _; reflexivity.
Qed.

Lemma dead_handle_undefined (e' : env W) (s : state W) (desc : Z) :
  heap s !! desc = None ->
  run e' (gpio_remove desc) s = None /\
  forall o : io_op, run e' (io_call desc o) s = None.
Proof.
  intros Hdead. split.
  - unfold gpio_remove. cbn. rewrite Hdead. reflexivity.
  - intros [v | cell | | v]; unfold io_call.
    + unfold gpio_set_value. cbn. rewrite Hdead. reflexivity.
    + unfold gpio_get_value. cbn. rewrite Hdead. reflexivity.
    + unfold gpio_direction_input. cbn. rewrite Hdead. reflexivity.
    + unfold gpio_direction_output. cbn. rewrite Hdead. reflexivity.
Qed.

(** X5.  A handle is dead after a successful [gpio_remove]: the function
    has freed it, and no function of the driver checks its handle, so a
    second [gpio_remove] or any I/O operation on it reads freed memory,
    which is undefined behaviour, whatever the environment answers. *)
Theorem use_after_remove_undefined (s : state W) (desc n ext dfd vfd : Z) :
  valid_handle (heap s) desc n ext dfd vfd ->
  exists (r : status) (s' : state W),
    run e (gpio_remove desc) s = Some (r, s') /\
    (r = SUCCESS ->
     forall e' : env W,
       run e' (gpio_remove desc) s' = None /\
       forall o : io_op, run e' (io_call desc o) s' = None).
Proof.
  intros Hh.
  destruct (gpio_remove_run s desc n ext dfd vfd Hh) as (r & s' & evs & Hrun & Htr & Hout).
  exists r, s'. split; [exact Hrun |].
  remember (heap s') as h' eqn:Hh'.
  destruct Hout; intros Hr; try discriminate Hr.
  intros e'. apply dead_handle_undefined.
  rewrite <- Hh'. simplify_map_eq. done.
Qed.

(** X6.  [gpio_get_optional] hides a failed acquire: it returns SUCCESS
    while the handle variable still holds what the caller put there.  When
    that is NULL or any other address that is not a live object, every
    operation of the driver on the handle read from the variable is
    undefined behaviour: the caller must test the variable, not the
    status. *)
Theorem optional_failure_leaves_unusable_handle (s : state W) (desc old : Z)
    (param : gpio_init_param) :
  heap s !! desc = Some (Bptr old) ->
  heap s !! old = None ->
  exists (r : status) (s' : state W),
    run e (gpio_get desc param) s = Some (r, s') /\
    run e (gpio_get_optional desc param) s = Some (SUCCESS, s') /\
    (r = FAILURE ->
     run e (load desc Fderef) s' = Some (old, s') /\
     forall e' : env W,
       run e' (gpio_remove old) s' = None /\
       forall o : io_op, run e' (io_call old o) s' = None).
Proof.
  intros Hdesc Hold.
  destruct (gpio_get_run e s desc old param Hdesc) as (r & s' & evs & Hrun & Htr & Hout).
  exists r, s'. split; [exact Hrun |]. split.
  { unfold gpio_get_optional. rewrite run_mbind, Hrun. reflexivity. }
  remember (heap s') as h' eqn:Hh'.
  destruct Hout; intros Hr; try discriminate Hr;
    (split; [cbn; rewrite <- Hh', Hdesc; reflexivity |]);
    intros e'; apply dead_handle_undefined; rewrite <- Hh'; exact Hold.
Qed.

(** X7.  [gpio_get] touches nothing but its own allocations and the
    caller's handle variable: whether it succeeds or fails, every other
    live object is as it was, so the handles of other pins stay valid. *)
Theorem gpio_get_frame (s : state W) (desc old : Z) (param : gpio_init_param) :
  heap s !! desc = Some (Bptr old) ->
  exists (r : status) (s' : state W),
    run e (gpio_get desc param) s = Some (r, s') /\
    (forall (a : Z) (b : block),
       a <> desc -> heap s !! a = Some b -> heap s' !! a = Some b) /\
    (forall d n x dfd vfd : Z,
       valid_handle (heap s) d n x dfd vfd ->
       valid_handle (heap s') d n x dfd vfd).
Proof.
  intros Hdesc.
  destruct (gpio_get_run e s desc old param Hdesc) as (r & s' & evs & Hrun & Htr & Hout).
  exists r, s'. split; [exact Hrun |].
  assert (Hframe : forall (a : Z) (b : block),
            a <> desc -> heap s !! a = Some b -> heap s' !! a = Some b).
  { remember (heap s') as h' eqn:Hh'.
    destruct Hout; intros a b Ha Hab; try exact Hab.
    assert (Hap : a <> p) by congruence.
    assert (Haq : a <> q) by congruence.
    simplify_map_eq. done. }
  split; [exact Hframe |].
  intros d n x dfd vfd [Hd Hx].
  split; apply Hframe; try assumption; congruence.
Qed.

(** X12.  Whatever happens, [gpio_get] opens only the export file and the
    two attribute files of its pin, each write-only, and its only write is
    the pin number.  It never opens the unexport file: a run that fails
    after the export step leaves the pin exported. *)
Theorem gpio_get_opens_only_its_files (s : state W) (desc old : Z)
    (param : gpio_init_param) :
  heap s !! desc = Some (Bptr old) ->
  let N := number param in
  exists (r : status) (s' : state W) (evs : list event),
    run e (gpio_get desc param) s = Some (r, s') /\
    trace s' = trace s ++ evs /\
    (forall (path : string) (fl : oflag) (fd : Z),
       In (EvOpen path fl fd) evs ->
       fl = O_WRONLY /\
       (path = "/sys/class/gpio/export" \/ path = direction_path N \/
        path = value_path N) /\
       path <> "/sys/class/gpio/unexport") /\
    (forall (fd wr : Z) (bytes : list ascii),
       In (EvWrite fd bytes wr) evs ->
       bytes = list_ascii_of_string (sprintf_d N) /\
       In (EvOpen "/sys/class/gpio/export" O_WRONLY fd) evs).
Proof.
  intros Hdesc N.
  destruct (gpio_get_run e s desc old param Hdesc) as (r & s' & evs & Hrun & Htr & Hout).
  exists r, s', evs. split; [exact Hrun |]. split; [exact Htr |].
  assert (Hexp : export_path <> "/sys/class/gpio/unexport") by discriminate.
  assert (Hdir : direction_path N <> "/sys/class/gpio/unexport").
  { unfold direction_path. simpl. discriminate. }
  assert (Hval : value_path N <> "/sys/class/gpio/unexport").
  { unfold value_path. simpl. discriminate. }
  remember (heap s') as h' eqn:Hh'.
  destruct Hout; unfold acquire_prefix; split;
    intros ? ? ? Hin; cbn in Hin;
    repeat (destruct Hin as [Hin | Hin]; [try discriminate Hin |]);
    try contradiction;
    try (injection Hin as <- <- <-;
         first [ split; [reflexivity |]; split; [auto | assumption]
               | split; [reflexivity | cbn; auto 20] ]).
Qed.

(** One I/O operation on a valid handle, with a [uint8_t] behind its
    output pointer if it has one: it returns, its calls are I/O calls on
    the two slots, and the heap is as before or differs by the level stored
    in that [uint8_t]. *)
Lemma io_call_step (s : state W) (desc n ext dfd vfd : Z) (o : io_op) :
  valid_handle (heap s) desc n ext dfd vfd ->
  Forall (fun c => exists v : Z, heap s !! c = Some (Bu8 v)) (cells_of [o]) ->
  exists (r : status) (s' : state W) (evs : list event),
    run e (io_call desc o) s = Some (r, s') /\
    trace s' = trace s ++ evs /\
    forallb (io_event dfd vfd) evs = true /\
    (forall held : list Z, unclosed evs held = held) /\
    (heap s' = heap s \/
     exists cell v lvl : Z,
       o = Op_get_value cell /\ heap s !! cell = Some (Bu8 v) /\
       heap s' = <[cell := Bu8 lvl]> (heap s)).
Proof.
  intros Hh Hcells. pose proof Hh as [Hd He].
  destruct o as [v | cell | | v]; unfold io_call.
  - rewrite (gpio_set_value_run e s desc n ext dfd vfd v Hh). cbn zeta.
    do 3 eexists. split; [reflexivity |]. cbn [trace heap].
    split; [reflexivity |].
    branch; (split; [io_events | auto]).
  - inversion Hcells as [| c l [v0 Hv] _]; subst.
    unfold gpio_get_value.
    cbn. rewrite Hd. cbn. ask_env. cbn. rewrite He. cbn.
    ask_env. destruct r as [bytes |]; cbn.
    + match goal with
      | |- context [Z.of_nat ?k <? 0] =>
          replace (Z.of_nat k <? 0) with false by (symmetry; apply Z.ltb_ge; lia)
      end.
      cbn.
      match goal with
      | |- context [decide (?x = ?y)] => destruct (decide (x = y))
      end; cbn; rewrite Hv; cbn; rewrite <- ?app_assoc;
        do 3 eexists; (split; [reflexivity |]); cbn [trace heap];
        (split; [reflexivity |]);
        (split; [io_events |]);
        (split; [reflexivity |]); right;
        exists cell, v0; eexists; (split; [reflexivity |]);
        (split; [exact Hv | reflexivity]).
    + rewrite <- ?app_assoc. do 3 eexists. split; [reflexivity |].
      cbn [trace heap]. split; [reflexivity |].
      split; [io_events |]. auto.
  - unfold gpio_direction_input.
    cbn. rewrite Hd. cbn. rewrite He. cbn.
    ask_env. cbn. branch; cbn; rewrite <- ?app_assoc;
      do 3 eexists; (split; [reflexivity |]); cbn [trace heap];
      (split; [reflexivity |]);
      (split; [io_events |]); auto.
  - unfold gpio_direction_output.
    cbn. rewrite Hd. cbn. rewrite He. cbn.
    ask_env. cbn. branch; cbn.
    + rewrite <- ?app_assoc.
      do 3 eexists; (split; [reflexivity |]); cbn [trace heap];
      (split; [reflexivity |]);
      (split; [io_events |]); auto.
    + rewrite run_mbind.
      rewrite (gpio_set_value_run e _ desc n ext dfd vfd v) by exact Hh.
      cbn. ask_env. cbn. branch; cbn;
        match goal with
        | |- context [decide (?a <> SUCCESS)] =>
            destruct (decide (a <> SUCCESS)); try congruence
        end; cbn; repeat rewrite <- app_assoc;
      do 3 eexists; (split; [reflexivity |]); cbn [trace heap];
      (split; [reflexivity |]);
      (split; [io_events |]);
      auto.
Qed.

(** X8.  A handle stays usable through any sequence of I/O operations,
    failed ones included.  On a valid handle, with a [uint8_t] behind every
    output pointer, every operation of the sequence returns; the calls made
    are only writes to the two slots, one-byte reads from the value slot,
    stores of a level and diagnostics; no descriptor is opened or closed,
    nothing is allocated or freed; the handle is valid afterwards and the
    heap differs only in those [uint8_t]. *)
Theorem io_seq_keeps_handle (ops : list io_op) :
  forall (s : state W) (desc n ext dfd vfd : Z),
  valid_handle (heap s) desc n ext dfd vfd ->
  Forall (fun c => exists v : Z, heap s !! c = Some (Bu8 v)) (cells_of ops) ->
  exists (rs : list status) (s' : state W) (evs : list event),
    run e (io_seq desc ops) s = Some (rs, s') /\
    length rs = length ops /\
    trace s' = trace s ++ evs /\
    forallb (io_event dfd vfd) evs = true /\
    (forall held : list Z, unclosed evs held = held) /\
    valid_handle (heap s') desc n ext dfd vfd /\
    (forall a : Z, ~ In a (cells_of ops) -> heap s' !! a = heap s !! a) /\
    (forall a v : Z, heap s !! a = Some (Bu8 v) ->
       exists v' : Z, heap s' !! a = Some (Bu8 v')).
Proof.
  induction ops as [| o ops IH]; intros s desc n ext dfd vfd Hh Hcells.
  - exists [], s, []. cbn. rewrite app_nil_r.
    repeat split; eauto; apply Hh.
  - assert (Hc1 : Forall (fun c => exists v : Z, heap s !! c = Some (Bu8 v))
                    (cells_of [o])).
    { destruct o; cbn in *; try constructor.
      - inversion Hcells; assumption.
      - constructor. }
    destruct (io_call_step s desc n ext dfd vfd o Hh Hc1)
      as (r & s1 & evs1 & Hrun1 & Htr1 & Hev1 & Hfd1 & Hheap1).
    assert (Hkeep : forall a v : Z, heap s !! a = Some (Bu8 v) ->
              exists v' : Z, heap s1 !! a = Some (Bu8 v')).
    { intros a v Ha. destruct Hheap1 as [-> | (cell & v0 & lvl & _ & _ & ->)].
      - eauto.
      - destruct (decide (a = cell)) as [-> |]; simplify_map_eq; eauto. }
    assert (Hframe1 : forall a : Z, ~ In a (cells_of [o]) ->
              heap s1 !! a = heap s !! a).
    { intros a Ha. destruct Hheap1 as [-> | (cell & v0 & lvl & -> & _ & ->)].
      - reflexivity.
      - cbn in Ha. rewrite lookup_insert_ne; [reflexivity | tauto]. }
    assert (Hh1 : valid_handle (heap s1) desc n ext dfd vfd).
    { destruct Hh as [Hd He].
      destruct Hheap1 as [-> | (cell & v0 & lvl & _ & Hcell & ->)].
      - split; assumption.
      - split; rewrite lookup_insert_ne; try assumption; congruence. }
    assert (Hcells1 : Forall (fun c => exists v : Z, heap s1 !! c = Some (Bu8 v))
                        (cells_of ops)).
    { assert (Htail : Forall (fun c => exists v : Z, heap s !! c = Some (Bu8 v))
                        (cells_of ops)).
      { destruct o; cbn in Hcells; try assumption.
        inversion Hcells; assumption. }
      eapply Forall_impl; [exact Htail |].
      intros c [v Hv]. exact (Hkeep c v Hv). }
    destruct (IH s1 desc n ext dfd vfd Hh1 Hcells1)
      as (rs & s2 & evs2 & Hrun2 & Hlen & Htr2 & Hev2 & Hfd2 & Hh2 & Hframe2 & Hkeep2).
    exists (r :: rs), s2, (evs1 ++ evs2).
    split.
    { cbn [io_seq]. rewrite run_mbind, Hrun1, run_mbind, Hrun2. reflexivity. }
    split; [cbn; f_equal; exact Hlen |].
    split; [rewrite Htr2, Htr1, app_assoc; reflexivity |].
    split; [rewrite forallb_app, Hev1, Hev2; reflexivity |].
    split.
    { intros held. unfold unclosed in *. rewrite fold_left_app.
      rewrite Hfd2. rewrite Hfd1. reflexivity. }
    split; [exact Hh2 |].
    split.
    { intros a Ha. rewrite Hframe2, Hframe1; [reflexivity | |];
        intros Hin; apply Ha; destruct o; cbn in *; tauto. }
    intros a v Ha. destruct (Hkeep a v Ha) as [v1 Hv1].
    exact (Hkeep2 a v1 Hv1).
Qed.

End lifecycle.

(** X13.  A failed [gpio_remove] cannot be retried cleanly.  Every call
    starts by passing the direction slot to [close].  A call that fails
    leaves the handle allocated and unchanged, so a second call on it is
    defined and passes the same slot to [close] again, also when the first
    call had closed it. *)
Theorem gpio_remove_retry_closes_again {W} (e : env W) (s : state W)
    (desc n ext dfd vfd : Z) :
  valid_handle (heap s) desc n ext dfd vfd ->
  exists (r1 : status) (s1 : state W) (c1 : Z) (rest1 : list event),
    run e (gpio_remove desc) s = Some (r1, s1) /\
    trace s1 = trace s ++ EvClose dfd c1 :: rest1 /\
    (r1 = FAILURE ->
     valid_handle (heap s1) desc n ext dfd vfd /\
     exists (r2 : status) (s2 : state W) (c2 : Z) (rest2 : list event),
       run e (gpio_remove desc) s1 = Some (r2, s2) /\
       trace s2 = trace s1 ++ EvClose dfd c2 :: rest2).
Proof.
  intros Hh.
  assert (Hfirst : forall (h h' : gmap Z block) (r : status) (evs : list event),
            gpio_remove_outcome h desc n ext dfd vfd r h' evs ->
            exists (c : Z) (rest : list event), evs = EvClose dfd c :: rest).
  { intros h h' r evs Hout. destruct Hout; eauto. }
  destruct (gpio_remove_run e s desc n ext dfd vfd Hh)
    as (r1 & s1 & evs1 & Hrun1 & Htr1 & Hout1).
  destruct (Hfirst _ _ _ _ Hout1) as (c1 & rest1 & E1).
  exists r1, s1, c1, rest1. split; [exact Hrun1 |].
  split; [rewrite Htr1, E1; reflexivity |].
  intros Hr1.
  assert (Hh1 : valid_handle (heap s1) desc n ext dfd vfd).
  { remember (heap s1) as h1 eqn:Hh1.
    destruct Hout1; try discriminate Hr1; exact Hh. }
  split; [exact Hh1 |].
  destruct (gpio_remove_run e s1 desc n ext dfd vfd Hh1)
    as (r2 & s2 & evs2 & Hrun2 & Htr2 & Hout2).
  destruct (Hfirst _ _ _ _ Hout2) as (c2 & rest2 & E2).
  exists r2, s2, c2, rest2. split; [exact Hrun2 |].
  rewrite Htr2, E2. reflexivity.
Qed.

(** ** The further properties at work *)

Lemma demo_null : heap (init_state demo_heap) !! NULL = None.
Proof. vm_compute; reflexivity. Defined.

Lemma path_buffer_suffices_witness :
  int32 (-2147483648) /\
  (String.length (direction_path (-2147483648)) <= 41)%nat /\
  (String.length (direction_path (-2147483648)) + 1 <= PATH_SIZE)%nat /\
  String.length (direction_path (-2147483648)) = 41%nat.
Proof.
  assert (H : int32 (-2147483648)) by (unfold int32; cbn; lia).
  split; [exact H |].
  destruct (path_buffer_suffices (-2147483648) H) as (_ & Hd & _ & _ & Hb & _).
  split; [exact Hd |]. split; [exact Hb |].
  vm_compute. reflexivity.
Defined.

Lemma gpio_get_descriptors_witness :
  heap (init_state demo_heap) !! 30 = Some (Bptr NULL) /\
  exists (s' : state nat) (evs : list event) (dfd vfd : Z),
    run (scripted 100 "X" []) (gpio_get 30 {| number := 17 |})
      (init_state demo_heap) = Some (SUCCESS, s') /\
    trace s' = evs /\
    unclosed evs [] = [vfd; dfd].
Proof.
  split; [exact demo_desc |].
  destruct (gpio_get_descriptors (scripted 100 "X" [])
              (init_state demo_heap) 30 NULL {| number := 17 |} [] demo_desc)
    as (r & s' & evs & Hrun & Htr & _ & Hok).
  assert (Hr : r = SUCCESS).
  { pose proof Hrun as Hc. vm_compute in Hc. congruence. }
  subst r.
  destruct (Hok eq_refl) as (p & q & dfd & vfd & _ & _ & Hfds).
  exists s', evs, dfd, vfd.
  split; [exact Hrun |]. split; [exact Htr | exact Hfds].
Defined.

Lemma gpio_remove_closes_slots_witness :
  valid_handle (heap (init_state demo_heap)) 10 17 11 4 5 /\
  exists (s' : state nat) (evs : list event),
    run (scripted 100 "X" []) (gpio_remove 10) (init_state demo_heap)
      = Some (SUCCESS, s') /\
    trace s' = evs /\
    unclosed evs [5; 4] = [] /\
    heap s' !! 10 = None.
Proof.
  split; [exact demo_handle |].
  destruct (gpio_remove_closes_slots (scripted 100 "X" [])
              (init_state demo_heap) 10 17 11 4 5 [] demo_handle)
    as (r & s' & evs & Hrun & Htr & Hok).
  assert (Hr : r = SUCCESS).
  { pose proof Hrun as Hc. vm_compute in Hc. congruence. }
  subst r.
  destruct (Hok eq_refl) as (Hfds & Hdead & _).
  exists s', evs.
  split; [exact Hrun |]. split; [exact Htr |]. split; [exact Hfds | exact Hdead].
Defined.

Lemma gpio_remove_write_failure_keeps_descriptor_witness :
  valid_handle (heap (init_state demo_heap)) 10 17 11 4 5 /\
  exists (s' : state nat) (evs : list event),
    run (scripted 3 "X" []) (gpio_remove 10) (init_state demo_heap)
      = Some (FAILURE, s') /\
    trace s' = evs /\
    In (EvWrite 5 ["1"; "7"]%char (-1)) evs /\
    unclosed evs [5; 4] = [5].
Proof.
  split; [exact demo_handle |].
  destruct (gpio_remove_write_failure_keeps_descriptor (scripted 3 "X" [])
              (init_state demo_heap) 10 17 11 4 5 [] demo_handle)
    as (r & s' & evs & Hrun & Htr & Hleak).
  assert (Hin : In (EvWrite 5 ["1"; "7"]%char (-1)) evs).
  { pose proof Hrun as Hc. vm_compute in Hc.
    injection Hc as _ Hs. rewrite <- Hs in Htr. cbn in Htr. rewrite <- Htr.
    cbn. auto 10. }
  destruct (Hleak 5 (-1) ["1"; "7"]%char Hin ltac:(lia)) as (-> & Hfds & _).
  exists s', evs.
  split; [exact Hrun |]. split; [exact Htr |]. split; [exact Hin | exact Hfds].
Defined.

Lemma acquire_release_restores_witness :
  heap (init_state demo_heap) !! 30 = Some (Bptr NULL) /\
  exists (s1 s2 : state nat) (h : Z),
    run (scripted 100 "X" []) (gpio_get 30 {| number := 17 |})
      (init_state demo_heap) = Some (SUCCESS, s1) /\
    run (scripted 100 "X" []) (gpio_remove h) s1 = Some (SUCCESS, s2) /\
    heap s2 = <[30 := Bptr h]> demo_heap.
Proof.
  split; [exact demo_desc |].
  destruct (acquire_release_restores (scripted 100 "X" [])
              (init_state demo_heap) 30 NULL {| number := 17 |} [] demo_desc)
    as (r1 & s1 & evs1 & Hrun1 & _ & Hok).
  pose proof Hrun1 as Hc. vm_compute in Hc. injection Hc as Hr1 Hs1.
  subst r1.
  destruct (Hok eq_refl) as (h & r2 & s2 & evs2 & Hh & Hrun2 & _ & Hboth).
  assert (Hr2 : r2 = SUCCESS).
  { rewrite <- Hs1 in Hh. vm_compute in Hh. injection Hh as Hh.
    rewrite <- Hs1, <- Hh in Hrun2. vm_compute in Hrun2. congruence. }
  subst r2.
  destruct (Hboth eq_refl) as (Hheap & _).
  exists s1, s2, h.
  split; [exact Hrun1 |]. split; [exact Hrun2 | exact Hheap].
Defined.

Lemma use_after_remove_undefined_witness :
  valid_handle (heap (init_state demo_heap)) 10 17 11 4 5 /\
  exists s' : state nat,
    run (scripted 100 "X" []) (gpio_remove 10) (init_state demo_heap)
      = Some (SUCCESS, s') /\
    run (scripted 100 "X" []) (gpio_remove 10) s' = None /\
    run (scripted 100 "X" []) (gpio_set_value 10 1) s' = None.
Proof.
  split; [exact demo_handle |].
  destruct (use_after_remove_undefined (scripted 100 "X" [])
              (init_state demo_heap) 10 17 11 4 5 demo_handle)
    as (r & s' & Hrun & Hok).
  assert (Hr : r = SUCCESS).
  { pose proof Hrun as Hc. vm_compute in Hc. congruence. }
  subst r.
  destruct (Hok eq_refl (scripted 100 "X" [])) as (Hrem & Hio).
  exists s'. split; [exact Hrun |]. split; [exact Hrem |].
  exact (Hio (Op_set_value 1)).
Defined.

Lemma optional_failure_leaves_unusable_handle_witness :
  heap (init_state demo_heap) !! 30 = Some (Bptr NULL) /\
  heap (init_state demo_heap) !! NULL = None /\
  exists s' : state nat,
    run (scripted 2 "X" []) (gpio_get_optional 30 {| number := 17 |})
      (init_state demo_heap) = Some (SUCCESS, s') /\
    run (scripted 2 "X" []) (load 30 Fderef) s' = Some (NULL, s') /\
    run (scripted 2 "X" []) (gpio_direction_input NULL) s' = None.
Proof.
  split; [exact demo_desc |]. split; [exact demo_null |].
  destruct (optional_failure_leaves_unusable_handle (scripted 2 "X" [])
              (init_state demo_heap) 30 NULL {| number := 17 |}
              demo_desc demo_null)
    as (r & s' & Hget & Hopt & Hfail).
  assert (Hr : r = FAILURE).
  { pose proof Hget as Hc. vm_compute in Hc. congruence. }
  subst r.
  destruct (Hfail eq_refl) as (Hload & Hdead).
  destruct (Hdead (scripted 2 "X" [])) as (_ & Hio).
  exists s'. split; [exact Hopt |]. split; [exact Hload |].
  exact (Hio Op_direction_input).
Defined.

Lemma gpio_get_frame_witness :
  heap (init_state demo_heap) !! 30 = Some (Bptr NULL) /\
  exists (r : status) (s' : state nat),
    run (scripted 100 "X" []) (gpio_get 30 {| number := 18 |})
      (init_state demo_heap) = Some (r, s') /\
    valid_handle (heap s') 10 17 11 4 5.
Proof.
  split; [exact demo_desc |].
  destruct (gpio_get_frame (scripted 100 "X" [])
              (init_state demo_heap) 30 NULL {| number := 18 |} demo_desc)
    as (r & s' & Hrun & _ & Hhandles).
  exists r, s'. split; [exact Hrun |].
  exact (Hhandles 10 17 11 4 5 demo_handle).
Defined.

Lemma gpio_get_opens_only_its_files_witness :
  heap (init_state demo_heap) !! 30 = Some (Bptr NULL) /\
  exists (s' : state nat) (evs : list event),
    run (scripted 5 "X" []) (gpio_get 30 {| number := 17 |})
      (init_state demo_heap) = Some (FAILURE, s') /\
    trace s' = evs /\
    forall (fl : oflag) (fd : Z),
      ~ In (EvOpen "/sys/class/gpio/unexport" fl fd) evs.
Proof.
  split; [exact demo_desc |].
  destruct (gpio_get_opens_only_its_files (scripted 5 "X" [])
              (init_state demo_heap) 30 NULL {| number := 17 |} demo_desc)
    as (r & s' & evs & Hrun & Htr & Hopen & _).
  assert (Hr : r = FAILURE).
  { pose proof Hrun as Hc. vm_compute in Hc. congruence. }
  subst r. exists s', evs.
  split; [exact Hrun |]. split; [exact Htr |].
  intros fl fd Hin. destruct (Hopen _ fl fd Hin) as (_ & _ & Hne).
  apply Hne. reflexivity.
Defined.

Lemma io_seq_keeps_handle_witness :
  valid_handle (heap (init_state demo_heap)) 10 17 11 4 5 /\
  Forall (fun c => exists v : Z, heap (init_state demo_heap) !! c = Some (Bu8 v))
    (cells_of [Op_direction_output 1; Op_get_value 20; Op_set_value 0;
               Op_direction_input]) /\
  exists (rs : list status) (s' : state nat),
    run (scripted 1 "X" ["1"]%char)
      (io_seq 10 [Op_direction_output 1; Op_get_value 20; Op_set_value 0;
                  Op_direction_input])
      (init_state demo_heap) = Some (rs, s') /\
    length rs = 4%nat /\
    valid_handle (heap s') 10 17 11 4 5.
Proof.
  assert (Hcells :
    Forall (fun c => exists v : Z, heap (init_state demo_heap) !! c = Some (Bu8 v))
      (cells_of [Op_direction_output 1; Op_get_value 20; Op_set_value 0;
                 Op_direction_input])).
  { cbn [cells_of]. constructor; [exists 7; exact demo_value | constructor]. }
  split; [exact demo_handle |]. split; [exact Hcells |].
  destruct (io_seq_keeps_handle (scripted 1 "X" ["1"]%char)
              [Op_direction_output 1; Op_get_value 20; Op_set_value 0;
               Op_direction_input]
              (init_state demo_heap) 10 17 11 4 5 demo_handle Hcells)
    as (rs & s' & evs & Hrun & Hlen & _ & _ & _ & Hh & _).
  exists rs, s'. split; [exact Hrun |]. split; [exact Hlen | exact Hh].
Defined.

Lemma gpio_remove_retry_closes_again_witness :
  valid_handle (heap (init_state demo_heap)) 10 17 11 4 5 /\
  exists (s1 s2 : state nat) (r2 : status) (c1 c2 : Z) (rest1 rest2 : list event),
    run (scripted 1 "X" []) (gpio_remove 10) (init_state demo_heap)
      = Some (FAILURE, s1) /\
    trace s1 = EvClose 4 c1 :: rest1 /\
    run (scripted 1 "X" []) (gpio_remove 10) s1 = Some (r2, s2) /\
    trace s2 = trace s1 ++ EvClose 4 c2 :: rest2.
Proof.
  split; [exact demo_handle |].
  destruct (gpio_remove_retry_closes_again (scripted 1 "X" [])
              (init_state demo_heap) 10 17 11 4 5 demo_handle)
    as (r1 & s1 & c1 & rest1 & Hrun1 & Htr1 & Hfail).
  assert (Hr : r1 = FAILURE).
  { pose proof Hrun1 as Hc. vm_compute in Hc. congruence. }
  subst r1.
  destruct (Hfail eq_refl) as (_ & r2 & s2 & c2 & rest2 & Hrun2 & Htr2).
  exists s1, s2, r2, c1, c2, rest1, rest2.
  split; [exact Hrun1 |]. split; [exact Htr1 |].
  split; [exact Hrun2 | exact Htr2].
Defined.
